(** * Tapo measurement tool: the measurement session and its supervisor

    A shallow embedding of [tapo_measure_tool.py].  The older [measure.py]
    has the same [measure_power] loop; its supervisor differs (no results
    folder is created, no unique file name is looked for) and is not
    modelled apart.

    Modelling conventions.
    - Time is an exact count of microseconds ([Z]).  There are two clocks,
      as in the code: the event loop's monotonic clock [loop.time()], which
      the loop condition and the pacing sleep go by, and the wall clock
      [datetime.now()], which gives [start_time], the timestamps and
      [elapsed_time].  The wall clock is a function of the loop clock that
      the state carries; it need not be monotonic (the clock of the machine
      can be set back during a session).  Synchronous code between two
      [await]s takes no time; the loop clock moves at the three suspension
      points only (connect, device read, pacing sleep).
    - Python's floats are replaced by exact numbers: the interval by a whole
      number of microseconds, quotients by rationals ([Q]).  What depends on
      the rounding of a float is outside the model: the outcome of the loop
      condition when the two sides differ by less than the rounding of the
      sum, and the [OverflowError] of [loop.time() + measure_duration] for a
      duration beyond the range of a float.
    - The CSV file is written through a buffered stream.  When the file
      system fails during the writing, what stays on disk is a prefix of the
      text of the file: some whole lines, and possibly the beginning of the
      next one.
    - The outside world is an explicit environment: what the device port
      answers, how long each answer takes, whether [CancelledError] is thrown
      into the task at a suspension point, and whether the file system fails
      while the CSV file is written.
    - Effects on the console, the widgets and the device port are appended
      to a log; the file system is a finite map from paths to contents. *)

From Stdlib Require Import ZArith QArith Lia.
From stdpp Require Import base option list strings gmap pretty.

Open Scope Z_scope.

Module Tapo.

(** ** Data *)

(** Microseconds per second. *)
Definition usec : Z := 1000000.

(** The exceptions the modelled code can meet. [CancelledError] is a
    [BaseException]; a bare [except:] catches it like any other. *)
Inductive exn :=
| TimeoutError
| DeviceError
| CancelledError
| UnboundLocalError
| ZeroDivisionError
| ValueError
| OSError
| FileExistsError
| FileNotFoundError.

Global Instance exn_eq_dec : EqDecision exn.
Proof. solve_decision. Defined.

(** [tapo_config], the dictionary kept in [config.json]. *)
Record Config := mkConfig {
  username : string;
  password : string;
  ip_addresses : list string;
  selected_ip : string;
  measure_interval : Z;          (* microseconds *)
  measure_duration : Z;          (* whole seconds, an [int] *)
  results_folder : string
}.

(** One entry of [measurements]: [{"timestamp": ..., "power": ...}]. *)
Record sample := mkSample { timestamp : Z; power : Z }.

Global Instance sample_eq_dec : EqDecision sample.
Proof. solve_decision. Defined.

(** A line of the CSV file as [csv.DictWriter] emits it. *)
Inductive csv_row :=
| HeaderRow (fieldnames : list string)
| DataRow (ts : Z) (pw : Z)
| CutRow (whole : csv_row).        (* the beginning of a line, cut before its end *)

Inductive content :=
| Dir
| JsonFile (c : Config)
| CsvFile (rows : list csv_row).

Inductive wstate := Normal | Disabled.

(** Calls made on the device port. *)
Inductive port_op :=
| P110 (user pass ip : string)
| GetEnergyUsage.

Inductive ui_event :=
| SetAllWidgetsState (s : wstate)
| ProgressBar (value : Q)
| RemainingTimeLabel (seconds : Z)
| TerminalInsert (ts : Z) (pw : Z)
| TerminalYview
| ShowError (msg : string)
| ShowInfo (msg : string) (path : string)
| UpdateStatus (msg : string).

Inductive effect :=
| Print (line : string)
| Ui (e : ui_event)
| Port (op : port_op).

(** The Tk variables of the form.  [interval_var] and [duration_var] hold
    what [float(...)] and [int(...)] make of the entry text; [None] stands
    for a text they reject with [ValueError]. *)
Record Form := mkForm {
  username_var : string;
  password_var : string;
  filename_var : string;
  folder_var : string;
  ip_var : string;
  interval_var : option Z;
  duration_var : option Z
}.

(** The arguments [measure_power] is created with. *)
Record Task := mkTask {
  task_ip : string;
  task_interval : Z;
  task_duration : Z;
  task_csv : string
}.

Global Instance Task_eq_dec : EqDecision Task.
Proof. solve_decision. Defined.

(** The process state: the globals of the module and the world around it. *)
Record State := mkState {
  clock : Z;                          (* [loop.time()] *)
  wall : Z → Z;                       (* [datetime.now()], by the instant of [clock] *)
  fs : gmap string content;
  log : list effect;
  tapo_config : Config;
  form : Form;
  measurement_task : option Task;     (* the global task handle *)
  tasks : list Task                   (* tasks created and not yet done *)
}.

Definition set_clock (t : Z) (w : State) : State :=
  mkState t (wall w) (fs w) (log w) (tapo_config w) (form w) (measurement_task w) (tasks w).

Definition set_fs (m : gmap string content) (w : State) : State :=
  mkState (clock w) (wall w) m (log w) (tapo_config w) (form w) (measurement_task w)
          (tasks w).

Definition emit (e : effect) (w : State) : State :=
  mkState (clock w) (wall w) (fs w) (log w ++ [e]) (tapo_config w) (form w)
          (measurement_task w) (tasks w).

Definition set_config (c : Config) (w : State) : State :=
  mkState (clock w) (wall w) (fs w) (log w) c (form w) (measurement_task w) (tasks w).

Definition set_tasks (h : option Task) (ts : list Task) (w : State) : State :=
  mkState (clock w) (wall w) (fs w) (log w) (tapo_config w) (form w) h ts.

(** The clock moves by [d] microseconds while the task is suspended. *)
Definition advance (d : Z) (w : State) : State := set_clock (clock w + d) w.

(** ** The environment of one session *)

(** [await asyncio.wait_for(client.p110(ip), timeout=5)] *)
Inductive connect_event :=
| ConnectOk (lat : N)
| ConnectRaises (e : exn) (lat : N).

(** [await asyncio.wait_for(device.get_energy_usage(), timeout=5)], then
    [energy_data.current_power].  A failure, a timeout and a cancellation
    thrown into the task while the read is in flight are all exceptions. *)
Inductive read_event :=
| ReadOk (pw : Z) (lat : N)
| ReadRaises (e : exn) (lat : N).

(** [await asyncio.sleep(measure_interval)]: it returns [late] microseconds
    after its deadline, or [CancelledError] is thrown into it [after]
    microseconds. *)
Inductive sleep_event :=
| SleepDone (late : N)
| SleepCancelled (after : N).

Record tick_event := mkTick { tick_read : read_event; tick_sleep : sleep_event }.

(** Failure of the file system while the CSV file is written: none, at
    [open], or later (during a write, or when the stream is flushed and
    closed), when [done] whole lines have reached the file and, if [cut],
    the beginning of the next line as well. *)
Inductive write_fault :=
| NoFault
| OpenFails
| WriteFails (done : nat) (cut : bool).

Record Env := mkEnv {
  env_connect : connect_event;
  env_ticks : list tick_event;
  env_fault : write_fault
}.

(** ** [measure_power] *)

(** [(datetime.now() - start_time).total_seconds()] *)
Definition total_seconds (now start : Z) : Q := inject_Z (now - start) / inject_Z usec.

(** Python's [int(x)] on a number: truncation towards zero. *)
Definition py_int (q : Q) : Z := Z.quot (Qnum q) (Zpos (Qden q)).

(** [progress_bar["value"]] after a sample. *)
Definition progress_value (duration : Z) (elapsed_time : Q) : Q :=
  (elapsed_time / inject_Z duration * 100)%Q.

(** [remaining_time = int(measure_duration - elapsed_time)] *)
Definition remaining_time (duration : Z) (elapsed_time : Q) : Z :=
  py_int (inject_Z duration - elapsed_time)%Q.

(** What the loop's locals are after one pass through its body. *)
Inductive body_result :=
| BodyContinue (current_power : option Z) (measurements : list sample) (w : State)
| BodyBreak (measurements : list sample) (w : State)      (* measure_interrupt = True *)
| BodyRaise (e : exn) (w : State).

Definition wait_read (r : read_event) : N :=
  match r with ReadOk _ lat => lat | ReadRaises _ lat => lat end.

(** The body of the [while] loop, lines 146 to 171.  [current_power] is
    [None] as long as the local variable is unbound. *)
Definition body (interval duration start_time : Z) (ev : tick_event)
    (current_power : option Z) (measurements : list sample) (w : State)
  : body_result :=
  let w := advance (Z.of_N (wait_read (tick_read ev))) (emit (Port GetEnergyUsage) w) in
  let '(current_power, w) :=
    match tick_read ev with
    | ReadOk pw _ => (Some pw, w)
    | ReadRaises _ _ =>
        (current_power, emit (Print "Error retrieving data, using previous value.") w)
    end in
  let timestamp := wall w (clock w) in
  match current_power with
  | None => BodyRaise UnboundLocalError w
  | Some pw =>
      let measurements := measurements ++ [mkSample timestamp pw] in
      let elapsed_time := total_seconds (wall w (clock w)) start_time in
      if duration =? 0 then BodyRaise ZeroDivisionError w else
      let w := emit (Ui (ProgressBar (progress_value duration elapsed_time))) w in
      let w := emit (Ui (RemainingTimeLabel (remaining_time duration elapsed_time))) w in
      let w := emit (Ui (TerminalInsert timestamp pw)) w in
      let w := emit (Ui TerminalYview) w in
      match tick_sleep ev with
      | SleepDone late =>
          BodyContinue (Some pw) measurements
            (advance (Z.max 0 interval + Z.of_N late) w)
      | SleepCancelled after =>
          BodyBreak measurements
            (emit (Print "Measurement task was cancelled.") (advance (Z.of_N after) w))
      end
  end.

Inductive loop_result :=
| LoopExit (measurements : list sample) (w : State)       (* the condition became false *)
| LoopBreak (measurements : list sample) (w : State)      (* [break], measure_interrupt *)
| LoopRaise (e : exn) (w : State)
| LoopPending (w : State).                                (* the environment ends here *)

(** [while asyncio.get_event_loop().time() < end_time: ...]; each pass
    consumes the next tick of the environment. *)
Fixpoint loop (interval duration end_time start_time : Z) (evs : list tick_event)
    (current_power : option Z) (measurements : list sample) (w : State)
  : loop_result :=
  if clock w <? end_time then
    match evs with
    | [] => LoopPending w
    | ev :: evs =>
        match body interval duration start_time ev current_power measurements w with
        | BodyContinue cp ms w' => loop interval duration end_time start_time evs cp ms w'
        | BodyBreak ms w' => LoopBreak ms w'
        | BodyRaise e w' => LoopRaise e w'
        end
    end
  else LoopExit measurements w.

Definition header : csv_row := HeaderRow ["timestamp"; "power"].

Definition row_of (s : sample) : csv_row := DataRow (timestamp s) (power s).

(** [writer.writeheader(); writer.writerows(measurements)] *)
Definition csv_lines (measurements : list sample) : list csv_row :=
  header :: map row_of measurements.

(** What is left of the lines of a file when the writing has failed:
    [done] whole lines and, if [cut], the beginning of the line after them. *)
Definition truncated (done : nat) (cut : bool) (lines : list csv_row) : list csv_row :=
  take done lines
  ++ match lines !! done with
     | Some r => if cut then [CutRow r] else []
     | None => []
     end.

(** [with open(csv_name, "w", newline="") as file: ...].  [open] creates or
    truncates the file at once; the lines go through the buffer of the
    stream; a failure of the file system, during a write or at [close],
    raises [OSError] out of the [with] block and leaves on disk the part of
    the text that had reached it (nothing yet, or all of it, at the two
    ends). *)
Definition write_csv (fault : write_fault) (csv_name : string)
    (measurements : list sample) (w : State) : option exn * State :=
  match fault with
  | OpenFails => (Some OSError, w)
  | NoFault => (None, set_fs (<[csv_name := CsvFile (csv_lines measurements)]> (fs w)) w)
  | WriteFails done cut =>
      (Some OSError,
       set_fs (<[csv_name := CsvFile (truncated done cut (csv_lines measurements))]> (fs w)) w)
  end.

Inductive outcome :=
| Returned (measure_interrupt : bool)
| Raised (e : exn)
| Pending.

Global Instance outcome_eq_dec : EqDecision outcome.
Proof. solve_decision. Defined.

(** [async def measure_power(tapo_ip, measure_interval, measure_duration, csv_name)] *)
Definition measure_power (env : Env) (tapo_ip : string)
    (interval duration : Z) (csv_name : string) (w : State) : outcome * State :=
  let w := emit (Port (P110 (username (tapo_config w)) (password (tapo_config w)) tapo_ip)) w in
  match env_connect env with
  | ConnectRaises e lat => (Raised e, advance (Z.of_N lat) w)
  | ConnectOk lat =>
      let w := advance (Z.of_N lat) w in
      let end_time := clock w + duration * usec in
      let start_time := wall w (clock w) in
      match loop interval duration end_time start_time (env_ticks env) None [] w with
      | LoopPending w => (Pending, w)
      | LoopRaise e w => (Raised e, w)
      | LoopBreak _ w => (Returned true, w)
      | LoopExit measurements w =>
          let w := emit (Ui (ProgressBar 100)) w in
          match write_csv (env_fault env) csv_name measurements w with
          | (Some e, w) => (Raised e, w)
          | (None, w) =>
              let w := emit (Ui (ShowInfo "Success" csv_name)) w in
              (Returned false, emit (Ui (SetAllWidgetsState Normal)) w)
          end
      end
  end.

(** The session states of the specification, read off the paths of the
    code: [measure_interrupt] set, or [CancelledError] caught by
    [measure_power_async], is the cancelled session; a normal return with the
    file written is the completed one; any other exception is a failure. *)
Inductive SessionState :=
| Running
| Completed
| Cancelled
| Failed.

Definition session_state (o : outcome) : SessionState :=
  match o with
  | Pending => Running
  | Returned true => Cancelled
  | Returned false => Completed
  | Raised CancelledError => Cancelled
  | Raised _ => Failed
  end.

(** ** The supervisor: [measure_power_async] and its helpers *)

Fixpoint ends_with_slash (s : string) : bool :=
  match s with
  | EmptyString => false
  | String c s' =>
      if decide (s' = "") then bool_decide (String c "" = "/") else ends_with_slash s'
  end.

(** [os.path.join(a, b)] on a POSIX system. *)
Definition path_join (a b : string) : string :=
  if String.prefix "/" b then b
  else if decide (a = "") then b
  else if ends_with_slash a then a +:+ b
  else a +:+ "/" +:+ b.

(** [os.path.exists] *)
Definition path_exists (m : gmap string content) (p : string) : bool :=
  bool_decide (is_Some (m !! p)).

(** The [while os.path.exists(csv_path)] loop of [get_unique_filename]. *)
Fixpoint probe (fuel : nat) (m : gmap string content) (folder base_filename : string)
    (counter : nat) (csv_path : string) : option string :=
  if path_exists m csv_path then
    match fuel with
    | O => None
    | S fuel =>
        probe fuel m folder base_filename (S counter)
          (path_join folder (base_filename +:+ "_" +:+ pretty counter +:+ ".csv"))
    end
  else Some csv_path.

(** [get_unique_filename(folder, filename)]; a file system of [n] entries
    cannot hold more than [n] of the candidate names. *)
Definition get_unique_filename (m : gmap string content) (folder filename : string)
  : option string :=
  probe (S (size m)) m folder filename 1 (path_join folder (filename +:+ ".csv")).

(** [save_config(config)] *)
Definition save_config (c : Config) (w : State) : State :=
  set_fs (<["config.json" := JsonFile c]> (fs w)) w.

(** [os.makedirs(folder, exist_ok=True)] on a flat name space of paths. *)
Definition makedirs (folder : string) (w : State) : option exn * State :=
  match fs w !! folder with
  | Some Dir => (None, w)
  | Some _ => (Some FileExistsError, w)
  | None =>
      if decide (folder = "") then (Some FileNotFoundError, w)
      else (None, set_fs (<[folder := Dir]> (fs w)) w)
  end.

Inductive begin_result :=
| BeginRaise (e : exn)
| BeginReject                 (* the error dialog, then [return] *)
| BeginTask (t : Task)        (* [measurement_task = asyncio.create_task(...)] *)
| BeginPending.

Definition with_credentials (f : Form) (c : Config) : Config :=
  mkConfig (username_var f) (password_var f) (ip_addresses c) (selected_ip c)
           (measure_interval c) (measure_duration c) (folder_var f).

Definition with_interval (i : Z) (c : Config) : Config :=
  mkConfig (username c) (password c) (ip_addresses c) (selected_ip c)
           i (measure_duration c) (results_folder c).

Definition with_duration (d : Z) (c : Config) : Config :=
  mkConfig (username c) (password c) (ip_addresses c) (selected_ip c)
           (measure_interval c) d (results_folder c).

(** [measure_power_async] from its first line to [await measurement_task]:
    there is no suspension point in between, so the event loop runs this
    part in one piece. *)
Definition measure_power_async_begin (w : State) : begin_result * State :=
  let f := form w in
  let w := emit (Ui (SetAllWidgetsState Disabled)) w in
  let w := set_config (with_credentials f (tapo_config w)) w in
  match interval_var f with
  | None => (BeginRaise ValueError, w)
  | Some i =>
      let w := set_config (with_interval i (tapo_config w)) w in
      match duration_var f with
      | None => (BeginRaise ValueError, w)
      | Some d =>
          let w := set_config (with_duration d (tapo_config w)) w in
          let w := save_config (tapo_config w) w in
          let ip := ip_var f in
          let filename := filename_var f in
          let folder := folder_var f in
          if bool_decide (ip = "") || bool_decide (filename = "") then
            let w := emit (Ui (ShowError "IP address and filename are required.")) w in
            (BeginReject, emit (Ui (SetAllWidgetsState Normal)) w)
          else
            match makedirs folder w with
            | (Some e, w) => (BeginRaise e, w)
            | (None, w) =>
                match get_unique_filename (fs w) folder filename with
                | None => (BeginPending, w)
                | Some csv_path =>
                    let t := mkTask ip (measure_interval (tapo_config w))
                                    (measure_duration (tapo_config w)) csv_path in
                    (BeginTask t, set_tasks (Some t) (tasks w ++ [t]) w)
                end
            end
      end
  end.

(** [start_measurement_threadsafe]: the coroutine is handed to the event
    loop without a look at [measurement_task]; the loop then runs it up to
    its first suspension point. *)
Definition start_measurement_threadsafe (w : State) : begin_result * State :=
  measure_power_async_begin w.

Inductive async_result :=
| AsyncRaise (e : exn)
| AsyncReject
| AsyncDone (o : outcome)
| AsyncPending.

Fixpoint remove_task (t : Task) (ts : list Task) : list Task :=
  match ts with
  | [] => []
  | t' :: ts => if decide (t = t') then ts else t' :: remove_task t ts
  end.

(** The whole coroutine, with the awaited task run to its end in the
    environment [env]. *)
Definition measure_power_async (env : Env) (w : State) : async_result * State :=
  match measure_power_async_begin w with
  | (BeginRaise e, w) => (AsyncRaise e, w)
  | (BeginReject, w) => (AsyncReject, w)
  | (BeginPending, w) => (AsyncPending, w)
  | (BeginTask t, w) =>
      match measure_power env (task_ip t) (task_interval t) (task_duration t) (task_csv t) w with
      | (Pending, w) => (AsyncPending, w)
      | (Raised CancelledError, w) =>
          let w := set_tasks (measurement_task w) (remove_task t (tasks w)) w in
          (AsyncDone (Raised CancelledError), emit (Ui (UpdateStatus "Measurement cancelled.")) w)
      | (Raised e, w) =>
          (AsyncRaise e, set_tasks (measurement_task w) (remove_task t (tasks w)) w)
      | (Returned b, w) =>
          (AsyncDone (Returned b), set_tasks (measurement_task w) (remove_task t (tasks w)) w)
      end
  end.

(** ** A sample world *)

Definition config0 : Config :=
  mkConfig "" "" [] "" 500000 360 "./results".

Definition form0 : Form :=
  mkForm "user" "secret" "run" "./results" "192.168.0.10" (Some 1000000) (Some 3).

(** Both clocks at zero and in step, an empty disk, no session yet. *)
Definition world0 : State := mkState 0 (λ t, t) ∅ [] config0 form0 None [].

Definition ok_tick (pw : Z) : tick_event := mkTick (ReadOk pw 0) (SleepDone 0).

(** ** Observing a run *)

(** What a run has appended to the log. *)
Definition emitted (w w' : State) : list effect := drop (length (log w)) (log w').

(** What the loop prints when it catches [CancelledError] at its pacing wait. *)
Definition cancel_line : effect := Print "Measurement task was cancelled.".

(** The state a pass of the body, or the loop, ends in. *)
Definition body_state (r : body_result) : State :=
  match r with
  | BodyContinue _ _ w => w
  | BodyBreak _ w => w
  | BodyRaise _ w => w
  end.

Definition loop_state (r : loop_result) : State :=
  match r with
  | LoopExit _ w => w
  | LoopBreak _ w => w
  | LoopRaise _ w => w
  | LoopPending w => w
  end.

(** The first [evs] passes of the loop, all of them ending in a completed
    pacing wait; the locals and the state the next pass starts from. *)
Fixpoint loop_prefix (interval duration end_time start_time : Z) (evs : list tick_event)
    (current_power : option Z) (measurements : list sample) (w : State)
  : option (option Z * list sample * State) :=
  match evs with
  | [] => Some (current_power, measurements, w)
  | ev :: evs =>
      if clock w <? end_time then
        match body interval duration start_time ev current_power measurements w with
        | BodyContinue cp ms w' =>
            loop_prefix interval duration end_time start_time evs cp ms w'
        | _ => None
        end
      else None
  end.

(** The deadline of the specification's session clock. *)
Definition next_deadline (start interval tick_index : Z) : Z :=
  start + tick_index * interval.

(** Time spent in one pass outside the interval itself: the device read and
    the lateness of the wake-up. *)
Definition tick_wait (ev : tick_event) : Z :=
  Z.of_N (wait_read (tick_read ev))
  + match tick_sleep ev with
    | SleepDone late => Z.of_N late
    | SleepCancelled after => Z.of_N after
    end.

(** The same, summed over the passes. *)
Definition waits (evs : list tick_event) : Z :=
  foldr (λ ev acc, tick_wait ev + acc) 0 evs.

(** The name [get_unique_filename] tries when the counter stands at [k]. *)
Definition candidate (folder base_filename : string) (k : nat) : string :=
  path_join folder (base_filename +:+ "_" +:+ pretty k +:+ ".csv").

(** ** Scenarios *)

(** The user fills in the form. *)
Definition with_form (f : Form) (w : State) : State :=
  mkState (clock w) (wall w) (fs w) (log w) (tapo_config w) f (measurement_task w)
          (tasks w).

(** A device that answers after 0.3 s, and a pacing wait that is exact. *)
Definition slow_tick : tick_event := mkTick (ReadOk 100 300000) (SleepDone 0).

(** A device that always answers at once with 100 mW. *)
Definition env_three_ticks : Env :=
  mkEnv (ConnectOk 0) [ok_tick 100; ok_tick 100; ok_tick 100] NoFault.

(** A session of ten seconds, cancelled during its second pacing wait. *)
Definition env_cancel_in_sleep : Env :=
  mkEnv (ConnectOk 0)
        [ok_tick 100; mkTick (ReadOk 120 0) (SleepCancelled 300000); ok_tick 100]
        NoFault.

Abbreviation run_cancel_in_sleep :=
  (measure_power env_cancel_in_sleep "192.168.0.10" 1000000 10 "out.csv" world0).

(** The first read of the session times out after five seconds. *)
Definition env_first_read_fails : Env :=
  mkEnv (ConnectOk 0)
        [mkTick (ReadRaises TimeoutError 5000000) (SleepDone 0); ok_tick 100; ok_tick 100]
        NoFault.

(** Three seconds at one sample a second; [CancelledError] is thrown into
    the task while its second read is in flight. *)
Definition env_cancel_in_read : Env :=
  mkEnv (ConnectOk 0)
        [ok_tick 100; mkTick (ReadRaises CancelledError 200000) (SleepDone 0); ok_tick 130]
        NoFault.

Abbreviation run_cancel_in_read :=
  (measure_power env_cancel_in_read "192.168.0.10" 1000000 3 "out.csv" world0).

(** Three samples collected; the disk fails when the header and the
    beginning of the first row have reached the file. *)
Definition env_write_fails : Env :=
  mkEnv (ConnectOk 0) [ok_tick 100; ok_tick 100; ok_tick 100] (WriteFails 1 true).

Abbreviation run_write_fails :=
  (measure_power env_write_fails "192.168.0.10" 1000000 3 "out.csv" world0).

(** One second of measurement at an interval of five seconds. *)
Abbreviation run_short_session :=
  (measure_power env_three_ticks "192.168.0.10" 5000000 1 "out.csv" world0).

(** A session of one second whose first device read takes three. *)
Definition env_slow_read : Env :=
  mkEnv (ConnectOk 0) [mkTick (ReadOk 100 3000000) (SleepDone 0)] NoFault.

Abbreviation run_slow_read :=
  (measure_power env_slow_read "192.168.0.10" 500000 1 "out.csv" world0).

(** The wall clock is set back by an hour right after the session has
    started: from the first read on it shows an hour less than the loop
    clock. *)
Definition world_clock_set_back : State :=
  mkState 0 (λ t, if t <? 100000 then t else t - 3600 * usec) ∅ [] config0 form0 None [].

(** A device whose first answer takes a tenth of a second. *)
Definition env_first_read_late : Env :=
  mkEnv (ConnectOk 0) [mkTick (ReadOk 100 100000) (SleepDone 0)] NoFault.

Abbreviation run_clock_set_back :=
  (measure_power env_first_read_late "192.168.0.10" 1000000 10 "out.csv" world_clock_set_back).

(** The task the form of [world0] leads to. *)
Definition task0 : Task := mkTask "192.168.0.10" 1000000 3 "./results/run.csv".

(** A form without a device address, and one with a duration of zero. *)
Definition form_no_ip : Form :=
  mkForm "user" "secret" "run" "./results" "" (Some 1000000) (Some 3).

Definition form_zero_duration : Form :=
  mkForm "user" "secret" "run" "./results" "192.168.0.10" (Some 1000000) (Some 0).

(** ** The settings file and the address list *)

(** [default_config] of [load_config]. *)
Definition default_config : Config :=
  mkConfig "" "" [] "" 500000 360 "./results".

(** [load_config()]: a missing file is created with the defaults; a
    directory of that name cannot be opened ([IsADirectoryError], an
    [OSError]); a file that holds no JSON makes [json.load] raise
    ([JSONDecodeError], a [ValueError]). *)
Definition load_config (w : State) : (exn + Config) * State :=
  match fs w !! "config.json" with
  | None => (inr default_config, save_config default_config w)
  | Some (JsonFile c) => (inr c, w)
  | Some Dir => (inl OSError, w)
  | Some (CsvFile _) => (inl ValueError, w)
  end.

(** The window state [add_ip] and [remove_ip] work on: the process state
    and the values shown by [ip_dropdown]. *)
Record Gui := mkGui {
  gui_state : State;
  ip_dropdown_values : list string
}.

Definition set_ip_var (ip : string) (f : Form) : Form :=
  mkForm (username_var f) (password_var f) (filename_var f) (folder_var f) ip
         (interval_var f) (duration_var f).

Definition with_ip_addresses (ips : list string) (c : Config) : Config :=
  mkConfig (username c) (password c) ips (selected_ip c)
           (measure_interval c) (measure_duration c) (results_folder c).

Definition with_selected_ip (ip : string) (c : Config) : Config :=
  mkConfig (username c) (password c) (ip_addresses c) ip
           (measure_interval c) (measure_duration c) (results_folder c).

(** [list.remove(x)]: the first occurrence goes. *)
Fixpoint py_list_remove (x : string) (l : list string) : list string :=
  match l with
  | [] => []
  | y :: l => if decide (x = y) then l else y :: py_list_remove x l
  end.

(** [add_ip()]; [new_ip] is what the dialog returns, [None] when it is
    dismissed. *)
Definition add_ip (new_ip : option string) (g : Gui) : Gui :=
  let w := gui_state g in
  match new_ip with
  | None => g
  | Some ip =>
      if bool_decide (ip ≠ "") && bool_decide (ip ∉ ip_addresses (tapo_config w)) then
        let c := with_ip_addresses (ip_addresses (tapo_config w) ++ [ip]) (tapo_config w) in
        let c := with_selected_ip ip c in
        let w := save_config c (set_config c w) in
        mkGui (with_form (set_ip_var ip (form w)) w) (ip_addresses c)
      else g
  end.

(** [remove_ip()] *)
Definition remove_ip (g : Gui) : Gui :=
  let w := gui_state g in
  let selected := ip_var (form w) in
  if bool_decide (selected ∈ ip_addresses (tapo_config w)) then
    let c := with_ip_addresses (py_list_remove selected (ip_addresses (tapo_config w)))
                               (tapo_config w) in
    let c := with_selected_ip "" c in
    let w := save_config c (set_config c w) in
    let w := with_form (set_ip_var "" (form w)) w in
    mkGui (emit (Ui (UpdateStatus "IP removed")) w) (ip_addresses c)
  else g.

(** The settings on disk and the dropdown agree with [tapo_config]. *)
Definition gui_consistent (g : Gui) : Prop :=
  fs (gui_state g) !! "config.json" = Some (JsonFile (tapo_config (gui_state g)))
  ∧ ip_dropdown_values g = ip_addresses (tapo_config (gui_state g)).

(** ** The widget tree *)

Inductive widget_class :=
| TkButton
| TkEntry
| TtkCombobox
| TkLabel
| TkText
| TkScrollbar
| TtkProgressbar.

(** A widget is a [tk.Frame] with its children, or another widget with its
    name, its class and its [state] option. *)
#[warnings="-register-all"]
Inductive widget :=
| Leaf (name : string) (cls : widget_class) (state : string)
| Frame (children : list widget).

(** [isinstance(widget, (tk.Button, tk.Entry, ttk.Combobox))] *)
Definition is_input (c : widget_class) : bool :=
  match c with
  | TkButton | TkEntry | TtkCombobox => true
  | _ => false
  end.

(** One turn of the [for] loop of [set_all_widgets_state]. *)
Fixpoint set_widget_state (state : string) (wd : widget) : widget :=
  match wd with
  | Leaf name cls st => if is_input cls then Leaf name cls state else Leaf name cls st
  | Frame children => Frame (map (set_widget_state state) children)
  end.

(** [set_all_widgets_state(state, parent)] of [tapo_measure_tool.py], on the
    children of [parent]. *)
Definition set_all_widgets_state (state : string) (children : list widget) : list widget :=
  map (set_widget_state state) children.

(** [set_all_widgets_state(state)] of [measure.py]: the children of the root
    window only, frames are not entered. *)
Definition set_all_widgets_state_flat (state : string) (children : list widget)
  : list widget :=
  map (λ wd, match wd with
             | Leaf name cls st =>
                 if is_input cls then Leaf name cls state else Leaf name cls st
             | Frame children => Frame children
             end) children.

(** The widgets of a tree that are not frames, in the order of the tree. *)
Fixpoint widget_leaves (wd : widget) : list (string * widget_class * string) :=
  match wd with
  | Leaf name cls st => [(name, cls, st)]
  | Frame children => concat (map widget_leaves children)
  end.

Definition leaves (children : list widget) : list (string * widget_class * string) :=
  concat (map widget_leaves children).

(** What [set_all_widgets_state] makes of one entry of [leaves]. *)
Definition retarget (state : string) (l : string * widget_class * string)
  : string * widget_class * string :=
  match l with
  | (name, cls, st) => (name, cls, if is_input cls then state else st)
  end.

(** No button, entry or combobox anywhere in the widget. *)
Fixpoint inert (wd : widget) : bool :=
  match wd with
  | Leaf _ cls _ => negb (is_input cls)
  | Frame children => forallb inert children
  end.

(** The frames among the children of the root window hold no button, entry
    or combobox, as in [measure.py], where the only frame is the one around
    the terminal. *)
Definition frames_inert (children : list widget) : Prop :=
  ∀ wd, wd ∈ children →
        match wd with
        | Leaf _ _ _ => True
        | Frame ch => forallb inert ch = true
        end.

(** ** [ping_ip_async] *)

(** [await asyncio.wait_for(device.get_device_info_json(), timeout=5)] *)
Inductive info_event :=
| InfoOk
| InfoRaises (e : exn).

Record PingEnv := mkPingEnv {
  ping_connect : connect_event;
  ping_info : info_event
}.

Inductive status_text :=
| ConnectedTo (ip : string)             (* f"Connected to {ip}" *)
| TimeoutUnreachable (ip : string)      (* f"Timeout: {ip} is unreachable" *)
| ErrorText (e : exn).                  (* f"Error: {e}" *)

Inductive ping_effect :=
| PingShowError (msg : string)
| PingP110 (user pass ip : string)
| PingGetDeviceInfo
| PingStatus (text : status_text) (color : string)
| MeasureButtonNormal.                  (* measure_button.config(state="normal") *)

(** The two [except] clauses of [ping_ip_async]: [asyncio.TimeoutError],
    then [Exception]; [CancelledError] is neither and goes through. *)
Definition ping_handler (ip : string) (e : exn) : list ping_effect * option exn :=
  match e with
  | TimeoutError => ([PingStatus (TimeoutUnreachable ip) "red"], None)
  | CancelledError => ([], Some CancelledError)
  | _ => ([PingStatus (ErrorText e) "red"], None)
  end.

(** [ping_ip_async()]: what it does to the outside, in order, and the
    exception it ends with, if any. *)
Definition ping_ip_async (env : PingEnv) (f : Form) : list ping_effect * option exn :=
  let ip := ip_var f in
  if bool_decide (ip = "") then ([PingShowError "No IP address selected."], None)
  else
    let calls := [PingP110 (username_var f) (password_var f) ip] in
    match ping_connect env with
    | ConnectRaises e _ =>
        let '(l, r) := ping_handler ip e in (calls ++ l, r)
    | ConnectOk _ =>
        let calls := calls ++ [PingGetDeviceInfo] in
        match ping_info env with
        | InfoRaises e =>
            let '(l, r) := ping_handler ip e in (calls ++ l, r)
        | InfoOk =>
            (calls ++ [PingStatus (ConnectedTo ip) "green"; MeasureButtonNormal], None)
        end
    end.

(** ** Reading a session off its log and its file *)

(** The samples shown in the terminal widget, in order. *)
Fixpoint shown_samples (l : list effect) : list sample :=
  match l with
  | [] => []
  | Ui (TerminalInsert ts pw) :: l => mkSample ts pw :: shown_samples l
  | _ :: l => shown_samples l
  end.

(** The state the last call of [set_all_widgets_state] has asked for. *)
Fixpoint last_widgets_state (l : list effect) : option wstate :=
  match l with
  | [] => None
  | Ui (SetAllWidgetsState s) :: l =>
      match last_widgets_state l with
      | Some s' => Some s'
      | None => Some s
      end
  | _ :: l => last_widgets_state l
  end.

(** Consecutive samples are at least [gap] apart. *)
Fixpoint spaced (gap : Z) (ms : list sample) : Prop :=
  match ms with
  | [] => True
  | s :: ms' =>
      match ms' with
      | [] => True
      | s' :: _ => timestamp s + gap ≤ timestamp s' ∧ spaced gap ms'
      end
  end.

(** A wall clock that keeps pace with the loop clock: over any stretch of
    time it moves forward by at least as much (it is neither set back nor
    slowed down). *)
Definition keeps_pace (now : Z → Z) : Prop :=
  ∀ t t', t ≤ t' → t' - t ≤ now t' - now t.

(** The power value a pass records, from the last recorded value and the
    answer of the device. *)
Definition recorded_power (previous : option Z) (r : read_event) : option Z :=
  match r with
  | ReadOk pw _ => Some pw
  | ReadRaises _ _ => previous
  end.

(** The power column that the answers [rs] of the device lead to, pass by
    pass, starting from the value [previous]. *)
Fixpoint fallback_series (previous : option Z) (rs : list read_event) : list (option Z) :=
  match rs with
  | [] => []
  | r :: rs =>
      let p := recorded_power previous r in
      p :: fallback_series p rs
  end.

(** ** Tactics *)

Ltac state_simpl :=
  cbn [clock wall fs log tapo_config form measurement_task tasks
       emit advance set_clock set_fs set_config set_tasks save_config
       body_state loop_state] in *.

(** Membership in an explicit list of effects, by cases. *)
Ltac in_cases :=
  cbn; unfold not; intros;
  repeat match goal with
         | H : _ ∨ _ |- _ => destruct H as [H | H]; try discriminate H
         | H : False |- _ => destruct H
         end;
  eauto.

Ltac find_in := cbn; repeat first [ left; reflexivity | right ].

(** The same for the window state of [add_ip] and [remove_ip]. *)
Ltac gui_simpl :=
  cbn [gui_state ip_dropdown_values with_form
       clock wall fs log tapo_config form measurement_task tasks
       emit set_fs set_config save_config
       ip_var set_ip_var ip_addresses selected_ip with_selected_ip with_ip_addresses] in *.

(** ** Basic facts about the state *)

Lemma emitted_app w w' l : log w' = log w ++ l → emitted w w' = l.
Proof. unfold emitted. intros ->. apply drop_app_length. Qed.

Lemma shown_samples_app l1 l2 :
  shown_samples (l1 ++ l2) = shown_samples l1 ++ shown_samples l2.
Proof.
  induction l1 as [| e l1 IH]; [reflexivity |].
  destruct e as [line | [] | op]; cbn; rewrite ?IH; reflexivity.
Qed.

Lemma last_widgets_state_app l1 l2 :
  last_widgets_state (l1 ++ l2)
  = match last_widgets_state l2 with
    | Some s => Some s
    | None => last_widgets_state l1
    end.
Proof.
  induction l1 as [| e l1 IH]; cbn.
  - by destruct (last_widgets_state l2).
  - destruct e as [line | [] | op]; cbn; rewrite ?IH;
      by destruct (last_widgets_state l2).
Qed.

(** ** [get_unique_filename] always finds a name *)

Lemma string_app_cons c (s t : string) : String c s +:+ t = String c (s +:+ t).
Proof. reflexivity. Qed.

Lemma string_length_app (s t : string) :
  String.length (s +:+ t) = (String.length s + String.length t)%nat.
Proof.
  induction s as [| c s IH]; [reflexivity |].
  rewrite string_app_cons. cbn [String.length]. by rewrite IH.
Qed.

Lemma string_app_inj_r (t s1 s2 : string) : s1 +:+ t = s2 +:+ t → s1 = s2.
Proof.
  revert s2. induction s1 as [| c s1 IH]; intros [| c' s2] H.
  - done.
  - apply (f_equal String.length) in H. rewrite !string_length_app in H.
    cbn [String.length] in H. lia.
  - apply (f_equal String.length) in H. rewrite !string_length_app in H.
    cbn [String.length] in H. lia.
  - rewrite !string_app_cons in H. inversion H; subst. f_equal. by apply IH.
Qed.

Lemma prefix_slash_app (base rest1 rest2 : string) :
  String.prefix "/" (base +:+ "_" +:+ rest1) = String.prefix "/" (base +:+ "_" +:+ rest2).
Proof.
  destruct base as [| c base]; [reflexivity |].
  rewrite !string_app_cons. cbn [String.prefix].
  destruct (Ascii.ascii_dec _ c); [| reflexivity].
  by destruct (base +:+ _), (base +:+ _).
Qed.

Global Instance candidate_inj folder base : Inj (=) (=) (candidate folder base).
Proof.
  intros j k. unfold candidate, path_join.
  rewrite (prefix_slash_app base (pretty j +:+ ".csv") (pretty k +:+ ".csv")).
  assert (Hname : base +:+ "_" +:+ pretty j +:+ ".csv" = base +:+ "_" +:+ pretty k +:+ ".csv"
                  → j = k).
  { intros H. apply String.app_inj in H. apply (String.app_inj "_") in H.
    apply string_app_inj_r in H. by apply (inj pretty) in H. }
  destruct (String.prefix _ _); [exact Hname |].
  destruct (decide (folder = "")); [exact Hname |].
  destruct (ends_with_slash folder); intros H; apply String.app_inj in H.
  - by apply Hname.
  - apply (String.app_inj "/") in H. by apply Hname.
Qed.

Lemma probe_finds fuel m folder base :
  ∀ counter csv_path,
    path_exists m csv_path = false
    ∨ (∃ k, (counter ≤ k < counter + fuel)%nat ∧ path_exists m (candidate folder base k) = false) →
    is_Some (probe fuel m folder base counter csv_path).
Proof.
  induction fuel as [| fuel IH]; intros counter csv_path H; cbn [probe].
  - destruct H as [-> | (k & ? & _)]; [eauto | lia].
  - destruct (path_exists m csv_path) eqn:He; [| eauto].
    destruct H as [? | (k & Hk & Hfree)]; [congruence |].
    apply IH. destruct (decide (k = counter)) as [-> | Hne].
    + by left.
    + right. exists k. split; [lia | done].
Qed.

Lemma free_candidate (m : gmap string content) folder base :
  ∃ k, (1 ≤ k < 1 + S (size m))%nat ∧ path_exists m (candidate folder base k) = false.
Proof.
  destruct (decide (Forall (λ k, path_exists m (candidate folder base k) = true)
                           (seq 1 (S (size m))))) as [Hall | Hnot].
  - exfalso.
    assert (Hsub : list_to_set (candidate folder base <$> seq 1 (S (size m))) ⊆ dom m).
    { intros p [p' [-> Hin]]%elem_of_list_to_set%list_elem_of_fmap.
      rewrite Forall_forall in Hall. specialize (Hall _ Hin).
      apply bool_decide_eq_true in Hall. by apply elem_of_dom. }
    apply subseteq_size in Hsub.
    rewrite size_list_to_set in Hsub
      by (apply (NoDup_fmap_2 _), NoDup_seq).
    rewrite length_fmap, length_seq, size_dom in Hsub. lia.
  - apply not_Forall_Exists in Hnot; [| intros k; apply _].
    apply Exists_exists in Hnot as (k & Hin & Hk).
    apply elem_of_seq in Hin. exists k. split; [lia |].
    cbn beta in Hk. by apply not_true_is_false.
Qed.

Lemma get_unique_filename_total m folder filename :
  is_Some (get_unique_filename m folder filename).
Proof. apply probe_finds. right. apply free_candidate. Qed.

Lemma measure_power_async_begin_returns w :
  (measure_power_async_begin w).1 ≠ BeginPending.
Proof.
  unfold measure_power_async_begin.
  destruct (interval_var (form w)); [| discriminate].
  destruct (duration_var (form w)); [| discriminate].
  destruct (bool_decide _ || bool_decide _); [discriminate |].
  destruct (makedirs _ _) as [[e |] w1]; [discriminate |].
  destruct (get_unique_filename_total (fs w1) (folder_var (form w)) (filename_var (form w)))
    as [csv_path ->].
  discriminate.
Qed.

(** ** The loop never touches the file system, and says so when it is
       interrupted *)

Lemma body_effects interval duration start_time ev cp ms w :
  let r := body interval duration start_time ev cp ms w in
  ∃ l, log (body_state r) = log w ++ l
       ∧ fs (body_state r) = fs w
       ∧ (In cancel_line l → ∃ ms' w', r = BodyBreak ms' w')
       ∧ (∀ m p, ¬ In (Ui (ShowInfo m p)) l).
Proof.
  unfold body. destruct ev as [[pw lat | e lat] sl];
    cbn [tick_read tick_sleep wait_read];
    [ | destruct cp as [pw |] ];
    try destruct (duration =? 0); try destruct sl as [late | after];
    state_simpl; rewrite <- ?app_assoc;
    (eexists; split; [reflexivity |]; split; [reflexivity |]; split; in_cases).
Qed.

Lemma loop_effects interval duration end_time start_time evs :
  ∀ cp ms w,
    let r := loop interval duration end_time start_time evs cp ms w in
    ∃ l, log (loop_state r) = log w ++ l
         ∧ fs (loop_state r) = fs w
         ∧ (In cancel_line l → ∃ ms' w', r = LoopBreak ms' w')
         ∧ (∀ m p, ¬ In (Ui (ShowInfo m p)) l).
Proof.
  induction evs as [| ev evs IH]; intros cp ms w; cbn [loop].
  - destruct (clock w <? end_time); exists []; rewrite app_nil_r; repeat split; in_cases.
  - destruct (clock w <? end_time).
    2: { exists []; rewrite app_nil_r; repeat split; in_cases. }
    destruct (body_effects interval duration start_time ev cp ms w)
      as (l & Hlog & Hfs & Hc & Hi).
    destruct (body interval duration start_time ev cp ms w) as [cp' ms' w' | ms' w' | e w'];
      state_simpl.
    + destruct (IH cp' ms' w') as (l' & Hlog' & Hfs' & Hc' & Hi').
      exists (l ++ l'). rewrite Hlog', Hlog, Hfs', Hfs, app_assoc.
      repeat split; try done.
      * intros [H | H]%in_app_or; [| by apply Hc'].
        destruct (Hc H) as (? & ? & ?); discriminate.
      * intros m p [H | H]%in_app_or; [by eapply Hi | by eapply Hi'].
    + exists l. repeat split; eauto.
    + exists l. repeat split; try done.
      intros H. destruct (Hc H) as (? & ? & ?); discriminate.
Qed.

(** ** C1: an observed cancellation discards the samples *)

Lemma write_csv_log fault csv_name ms w :
  log (write_csv fault csv_name ms w).2 = log w.
Proof.
  unfold write_csv. by destruct fault as [| | k cut].
Qed.

Lemma measure_power_effects env tapo_ip interval duration csv_name w :
  let r := measure_power env tapo_ip interval duration csv_name w in
  ∃ l, log r.2 = log w ++ l
       ∧ (In cancel_line l → r.1 = Returned true ∧ fs r.2 = fs w)
       ∧ (r.1 = Returned true → ∀ m p, ¬ In (Ui (ShowInfo m p)) l).
Proof.
  unfold measure_power.
  destruct (env_connect env) as [lat | e lat].
  2: { eexists; state_simpl; split; [reflexivity |]; split; in_cases. }
  match goal with |- context [loop ?i ?d ?e ?s ?evs ?cp ?ms ?w0] =>
    destruct (loop_effects i d e s evs cp ms w0) as (l & Hlog & Hfs & Hc & Hi);
    destruct (loop i d e s evs cp ms w0) as [ms' w1 | ms' w1 | e' w1 | w1]
  end; cbn [fst snd]; state_simpl.
  - match goal with |- context [write_csv ?f ?c ?m ?w0] =>
      pose proof (write_csv_log f c m w0) as Hw;
      destruct (write_csv f c m w0) as [[e' |] w2]
    end; state_simpl; cbn [fst snd] in *;
      state_simpl; rewrite ?Hw, Hlog, <- ?app_assoc;
      (eexists; split; [reflexivity |]); (split; [| done]);
      cbn; intros [H | [H | H]%in_app_or]; try discriminate H;
      try (destruct (Hc H) as (? & ? & ?); discriminate);
      revert H; in_cases.
  - rewrite Hlog, <- ?app_assoc. eexists; split; [reflexivity |].
    split; [done |]. intros _ m p [H | H]; [discriminate H | by eapply Hi].
  - rewrite Hlog, <- ?app_assoc. eexists; split; [reflexivity |].
    split; [| done]. intros [H | H]; [discriminate H |].
    destruct (Hc H) as (? & ? & ?); discriminate.
  - rewrite Hlog, <- ?app_assoc. eexists; split; [reflexivity |].
    split; [| done]. intros [H | H]; [discriminate H |].
    destruct (Hc H) as (? & ? & ?); discriminate.
Qed.

(** C1.  Whenever the loop of a session observes a cancellation (its
    [except asyncio.CancelledError] branch runs, which prints
    "Measurement task was cancelled."), [measure_power] returns with
    [measure_interrupt] set, the session is in the cancelled state, the file
    system is exactly what it was before the session (so nothing is created
    or modified at the target path) and no success dialog is shown. *)
Theorem cancel_observed_discards env tapo_ip interval duration csv_name w o w' :
  measure_power env tapo_ip interval duration csv_name w = (o, w') →
  In cancel_line (emitted w w') →
  o = Returned true
  ∧ session_state o = Cancelled
  ∧ fs w' = fs w
  ∧ ∀ m p, ¬ In (Ui (ShowInfo m p)) (emitted w w').
Proof.
  intros Hrun Hin.
  destruct (measure_power_effects env tapo_ip interval duration csv_name w)
    as (l & Hlog & Hc & Hi).
  rewrite Hrun in Hlog, Hc, Hi. cbn [fst snd] in *.
  rewrite (emitted_app _ _ _ Hlog) in *.
  destruct (Hc Hin) as [-> Hfs]. auto.
Qed.

Lemma cancel_observed_discards_witness :
  In cancel_line (emitted world0 run_cancel_in_sleep.2)
  ∧ run_cancel_in_sleep.1 = Returned true
  ∧ session_state run_cancel_in_sleep.1 = Cancelled
  ∧ fs run_cancel_in_sleep.2 = fs world0
  ∧ ∀ m p, ¬ In (Ui (ShowInfo m p)) (emitted world0 run_cancel_in_sleep.2).
Proof.
  assert (Hin : In cancel_line (emitted world0 run_cancel_in_sleep.2))
    by (vm_compute; find_in).
  split; [exact Hin |].
  remember (measure_power _ _ _ _ _ _) as r eqn:Hrun. destruct r as [o w'].
  exact (cancel_observed_discards _ _ _ _ _ _ o w' (eq_sym Hrun) Hin).
Defined.

(** ** C2: the fallback on a failed read *)

(** After a successful read, a failed one records the previous value: the
    tick still yields its sample and the loop goes on. *)
Lemma body_fallback interval duration start_time e lat late pw ms w :
  duration ≠ 0 →
  ∃ w', body interval duration start_time (mkTick (ReadRaises e lat) (SleepDone late))
             (Some pw) ms w
        = BodyContinue (Some pw) (ms ++ [mkSample (wall w (clock w + Z.of_N lat)) pw]) w'.
Proof.
  intros Hd. unfold body; cbn [tick_read tick_sleep wait_read].
  apply Z.eqb_neq in Hd. rewrite Hd. state_simpl. eauto.
Qed.

(** C2.  When the very first read of a session fails, [current_power] is
    still unbound: [measure_power] raises [UnboundLocalError] out of the
    loop, the session has failed, no sample was recorded and the file system
    is as it was. *)
Theorem first_read_failure_aborts env tapo_ip interval duration csv_name w lat e rlat sl rest :
  env_connect env = ConnectOk lat →
  env_ticks env = mkTick (ReadRaises e rlat) sl :: rest →
  0 < duration →
  ∃ w', measure_power env tapo_ip interval duration csv_name w = (Raised UnboundLocalError, w')
        ∧ session_state (Raised UnboundLocalError) = Failed
        ∧ fs w' = fs w.
Proof.
  intros Hc Ht Hd. unfold measure_power. rewrite Hc, Ht. cbn [loop]. state_simpl.
  destruct (Z.ltb_spec (clock w + Z.of_N lat) (clock w + Z.of_N lat + duration * usec))
    as [_ | Hge]; [| unfold usec in Hge; lia].
  unfold body; cbn [tick_read tick_sleep wait_read]. eauto.
Qed.

Lemma first_read_failure_aborts_witness :
  ∃ w', measure_power env_first_read_fails "192.168.0.10" 1000000 3 "out.csv" world0
        = (Raised UnboundLocalError, w')
        ∧ session_state (Raised UnboundLocalError) = Failed
        ∧ fs w' = fs world0.
Proof.
  apply (first_read_failure_aborts env_first_read_fails "192.168.0.10" 1000000 3 "out.csv"
           world0 0%N TimeoutError 5000000%N (SleepDone 0) [ok_tick 100; ok_tick 100]);
    [reflexivity | reflexivity | lia].
Defined.

(** ** C5: a cancellation thrown into the device read *)

(** C5.  The bare [except:] around the device read treats a cancellation
    like any failed read: the body does exactly what it does on a timeout.
    In the session [env_cancel_in_read] the signal is lost: the loop never
    prints its cancellation message, runs to its natural end and writes the
    file, the cancelled tick included with the previous power value. *)
Theorem cancel_in_read_is_swallowed :
  (∀ interval duration start_time lat sl cp ms w,
      body interval duration start_time (mkTick (ReadRaises CancelledError lat) sl) cp ms w
      = body interval duration start_time (mkTick (ReadRaises TimeoutError lat) sl) cp ms w)
  ∧ run_cancel_in_read.1 = Returned false
  ∧ session_state run_cancel_in_read.1 = Completed
  ∧ ¬ In cancel_line (log run_cancel_in_read.2)
  ∧ fs run_cancel_in_read.2 !! "out.csv"
    = Some (CsvFile [header; DataRow 0 100; DataRow 1200000 100; DataRow 2200000 130]).
Proof.
  split; [reflexivity |].
  split; [by vm_compute |].
  split; [by vm_compute |].
  split; [vm_compute; intros H; in_cases | by vm_compute].
Qed.

(** ** C6: when the next tick starts *)

Lemma loop_prefix_loop interval duration end_time start_time evs rest :
  ∀ cp ms w cp' ms' w',
    loop_prefix interval duration end_time start_time evs cp ms w = Some (cp', ms', w') →
    loop interval duration end_time start_time (evs ++ rest) cp ms w
    = loop interval duration end_time start_time rest cp' ms' w'.
Proof.
  induction evs as [| ev evs IH]; intros cp ms w cp' ms' w' H; cbn in H |- *.
  - by inversion H.
  - destruct (clock w <? end_time); [| discriminate].
    destruct (body interval duration start_time ev cp ms w); try discriminate.
    by apply IH.
Qed.

Lemma body_continue_clock interval duration start_time ev cp ms w cp' ms' w' :
  body interval duration start_time ev cp ms w = BodyContinue cp' ms' w' →
  clock w' = clock w + Z.max 0 interval + tick_wait ev.
Proof.
  unfold body, tick_wait. destruct ev as [[pw lat | e lat] sl];
    cbn [tick_read tick_sleep wait_read];
    [ | destruct cp as [pw |] ];
    try destruct (duration =? 0); try destruct sl as [late | after];
    intros H; inversion H; subst; state_simpl; lia.
Qed.

Lemma tick_wait_nonneg ev : 0 ≤ tick_wait ev.
Proof. unfold tick_wait. destruct (tick_sleep ev); lia. Qed.

(** The loop clock never runs backwards during the loop. *)
Lemma loop_prefix_clock_le interval duration end_time start_time evs :
  ∀ cp ms w cp' ms' w',
    loop_prefix interval duration end_time start_time evs cp ms w = Some (cp', ms', w') →
    clock w ≤ clock w'.
Proof.
  induction evs as [| ev evs IH]; intros cp ms w cp' ms' w' H; cbn in H.
  - inversion H; subst. lia.
  - destruct (clock w <? end_time); [| discriminate].
    destruct (body interval duration start_time ev cp ms w) as [cp1 ms1 w1 | |] eqn:Hb;
      try discriminate.
    apply body_continue_clock in Hb. apply IH in H.
    pose proof (tick_wait_nonneg ev). lia.
Qed.

(** With a positive interval the loop ends: an environment that describes
    enough ticks to cover the duration is never exhausted. *)
Lemma loop_returns interval duration end_time start_time evs :
  0 < interval →
  ∀ cp ms w,
    end_time - clock w ≤ Z.of_nat (length evs) * interval →
    ∀ w', loop interval duration end_time start_time evs cp ms w ≠ LoopPending w'.
Proof.
  intros Hi. induction evs as [| ev evs IH]; intros cp ms w Hlen w'; cbn [loop].
  - destruct (Z.ltb_spec (clock w) end_time); [cbn in Hlen; lia | discriminate].
  - destruct (Z.ltb_spec (clock w) end_time); [| discriminate].
    destruct (body interval duration start_time ev cp ms w) as [cp1 ms1 w1 | |] eqn:Hb;
      try discriminate.
    apply body_continue_clock in Hb. apply IH.
    pose proof (tick_wait_nonneg ev). cbn [length] in Hlen. lia.
Qed.

Lemma measure_power_returns env tapo_ip interval duration csv_name w :
  0 < interval →
  duration * usec ≤ Z.of_nat (length (env_ticks env)) * interval →
  (measure_power env tapo_ip interval duration csv_name w).1 ≠ Pending.
Proof.
  intros Hi Hlen. unfold measure_power.
  destruct (env_connect env) as [lat | e lat]; [| discriminate].
  match goal with |- context [loop ?i ?d ?e ?s ?evs ?cp ?ms ?w0] =>
    pose proof (loop_returns i d e s evs Hi cp ms w0) as Hret;
    destruct (loop i d e s evs cp ms w0) as [ms' w1 | ms' w1 | e' w1 | w1]
  end; try discriminate.
  - destruct (write_csv _ _ _ _) as [[e' |] w2]; discriminate.
  - exfalso. apply (Hret ltac:(state_simpl; lia) w1). reflexivity.
Qed.

(** A cancellation thrown into the pacing wait ends the wait there and then,
    and the loop says so. *)
Lemma cancel_in_sleep_breaks interval duration start_time pw lat after cp ms w :
  duration ≠ 0 →
  ∃ w', body interval duration start_time (mkTick (ReadOk pw lat) (SleepCancelled after))
             cp ms w
        = BodyBreak (ms ++ [mkSample (wall w (clock w + Z.of_N lat)) pw]) w'
        ∧ clock w' = clock w + Z.of_N lat + Z.of_N after
        ∧ In cancel_line (emitted w w').
Proof.
  intros Hd. unfold body; cbn [tick_read tick_sleep wait_read].
  apply Z.eqb_neq in Hd. rewrite Hd. state_simpl.
  eexists. split; [reflexivity |]. state_simpl. split; [reflexivity |].
  erewrite emitted_app by (state_simpl; rewrite <- ?app_assoc; reflexivity).
  find_in.
Qed.

(** C6, as stated, fails: with a one-second interval the third pass of the
    loop starts 2.6 s after the session start, not at the deadline
    [start + 2 × interval]; each pass has added its read latency. *)
Lemma pacing_drifts :
  ∃ cp ms w',
    loop_prefix 1000000 10 10000000 0 [slow_tick; slow_tick] None [] world0
    = Some (cp, ms, w')
    ∧ clock w' = 2600000
    ∧ clock w' ≠ next_deadline (clock world0) 1000000 2.
Proof. vm_compute. do 3 eexists. split; [reflexivity |]. split; [reflexivity | discriminate]. Qed.

(** C6, amended.  Each pacing wait is [asyncio.sleep(measure_interval)],
    counted from the moment the sample was taken: after [k] passes of the
    loop the clock stands at the session clock's deadline for tick [k] plus
    all the time the [k] device reads and wake-ups have taken. *)
Theorem pacing_from_now interval duration end_time start_time evs :
  ∀ cp ms w cp' ms' w',
    loop_prefix interval duration end_time start_time evs cp ms w = Some (cp', ms', w') →
    clock w' = next_deadline (clock w) (Z.max 0 interval) (Z.of_nat (length evs)) + waits evs.
Proof.
  unfold next_deadline.
  induction evs as [| ev evs IH]; intros cp ms w cp' ms' w' H; cbn in H.
  - inversion H; subst. cbn. lia.
  - destruct (clock w <? end_time); [| discriminate].
    destruct (body interval duration start_time ev cp ms w) as [cp1 ms1 w1 | |] eqn:Hb;
      try discriminate.
    apply body_continue_clock in Hb. apply IH in H.
    rewrite H, Hb. cbn [length waits foldr]. fold (waits evs). lia.
Qed.

Lemma pacing_from_now_witness :
  ∃ w', loop_prefix 1000000 10 10000000 0 [slow_tick; slow_tick] None [] world0
        = Some (Some 100, [mkSample 300000 100; mkSample 1600000 100], w')
        ∧ clock w' = next_deadline (clock world0) (Z.max 0 1000000) (Z.of_nat 2)
                     + waits [slow_tick; slow_tick].
Proof.
  eexists. split; [vm_compute; reflexivity |].
  apply (pacing_from_now 1000000 10 10000000 0 [slow_tick; slow_tick] None [] world0
           (Some 100) [mkSample 300000 100; mkSample 1600000 100]).
  vm_compute; reflexivity.
Defined.

(** ** C8 and C10: the loop samples before it sleeps *)

Lemma body_continue_sample interval duration start_time ev cp ms w cp' ms' w' :
  body interval duration start_time ev cp ms w = BodyContinue cp' ms' w' →
  ∃ pw, recorded_power cp (tick_read ev) = Some pw
        ∧ cp' = Some pw
        ∧ ms' = ms ++ [mkSample (wall w (clock w + Z.of_N (wait_read (tick_read ev)))) pw].
Proof.
  unfold body. destruct ev as [[pw lat | e lat] sl];
    cbn [tick_read tick_sleep wait_read recorded_power];
    [ | destruct cp as [pw |] ];
    try destruct (duration =? 0); try destruct sl as [late | after];
    intros H; inversion H; subst; state_simpl; eauto.
Qed.

Lemma loop_exit_extends interval duration end_time start_time evs :
  ∀ cp ms w ms' w',
    loop interval duration end_time start_time evs cp ms w = LoopExit ms' w' →
    ∃ l, ms' = ms ++ l.
Proof.
  induction evs as [| ev evs IH]; intros cp ms w ms' w' H; cbn in H.
  - destruct (clock w <? end_time); inversion H; subst. exists []. by rewrite app_nil_r.
  - destruct (clock w <? end_time).
    2: { inversion H; subst. exists []. by rewrite app_nil_r. }
    destruct (body interval duration start_time ev cp ms w) as [cp1 ms1 w1 | |] eqn:Hb;
      try discriminate.
    apply body_continue_sample in Hb as (pw & Hrec & _ & ->).
    apply IH in H as (l & ->). rewrite <- app_assoc. eauto.
Qed.

(** A loop that is entered and left by its condition has taken its first
    sample when the first read returned, before any pacing wait. *)
Lemma loop_exit_first_sample interval duration end_time start_time evs w ms' w' :
  clock w < end_time →
  loop interval duration end_time start_time evs None [] w = LoopExit ms' w' →
  ∃ ev rest pw more,
    evs = ev :: rest
    ∧ recorded_power None (tick_read ev) = Some pw
    ∧ ms' = mkSample (wall w (clock w + Z.of_N (wait_read (tick_read ev)))) pw :: more.
Proof.
  intros Hlt H. destruct evs as [| ev rest]; cbn in H;
    destruct (Z.ltb_spec (clock w) end_time); try lia; try discriminate.
  destruct (body interval duration start_time ev None [] w) as [cp1 ms1 w1 | |] eqn:Hb;
    try discriminate.
  apply body_continue_sample in Hb as (pw & Hrec & _ & ->).
  apply loop_exit_extends in H as (l & ->). cbn. eauto 10.
Qed.

(** C10.  In a session of positive duration on a connected device the loop
    is entered, and its first pass decides.  When the first read fails,
    [current_power] is still unbound: the session raises
    [UnboundLocalError], no sample is shown and the file system is as it was;
    so not every such session records a sample.  When the first read
    succeeds, the sample taken as the read returned is appended and shown
    ahead of the first pacing wait: a cancellation thrown into that very
    wait leaves the loop with this sample in [measurements], and a session
    that completes has written the header, this sample as the first data
    row, and the rows after it. *)
Theorem first_pass_decides env tapo_ip interval duration csv_name w lat ev rest :
  0 < duration →
  env_connect env = ConnectOk lat →
  env_ticks env = ev :: rest →
  let w0 := advance (Z.of_N lat)
              (emit (Port (P110 (username (tapo_config w)) (password (tapo_config w)) tapo_ip))
                    w) in
  let run := measure_power env tapo_ip interval duration csv_name w in
  match tick_read ev with
  | ReadRaises _ _ =>
      run.1 = Raised UnboundLocalError
      ∧ shown_samples (emitted w run.2) = []
      ∧ fs run.2 = fs w
  | ReadOk pw rlat =>
      let s := mkSample (wall w (clock w + Z.of_N lat + Z.of_N rlat)) pw in
      (∃ more, shown_samples (emitted w run.2) = s :: more)
      ∧ (∀ after, tick_sleep ev = SleepCancelled after →
           run.1 = Returned true
           ∧ ∃ w1, loop interval duration (clock w0 + duration * usec) (wall w0 (clock w0))
                        (env_ticks env) None [] w0
                   = LoopBreak [s] w1)
      ∧ (∀ w', run = (Returned false, w') →
           ∃ more, fs w' !! csv_name
                   = Some (CsvFile (header :: row_of s :: map row_of more)))
  end.
Proof.
  intros Hd Hc Ht w0 run. subst w0 run.
  assert (Hlt : (clock w + Z.of_N lat <? clock w + Z.of_N lat + duration * usec) = true)
    by (apply Z.ltb_lt; unfold usec; lia).
  assert (Hnz : (duration =? 0) = false) by (apply Z.eqb_neq; lia).
  destruct ev as [[pw rlat | e rlat] sl]; cbn [tick_read tick_sleep].
  2: { unfold measure_power. rewrite Hc, Ht. cbn [loop]. state_simpl. rewrite Hlt.
       unfold body; cbn [tick_read tick_sleep wait_read]. cbn [fst snd].
       erewrite emitted_app by (state_simpl; rewrite <- ?app_assoc; reflexivity).
       state_simpl. repeat split. }
  cbn zeta. split; [| split].
  - unfold measure_power. rewrite Hc, Ht. cbn [loop]. state_simpl. rewrite Hlt.
    unfold body; cbn [tick_read tick_sleep wait_read]. rewrite Hnz. state_simpl.
    destruct sl as [late | after].
    + match goal with |- context [loop ?i ?d ?e ?s ?evs ?cp ?ms ?w0] =>
        destruct (loop_effects i d e s evs cp ms w0) as (l & Hlog & _);
        destruct (loop i d e s evs cp ms w0) as [ms' w1 | ms' w1 | e' w1 | w1]
      end; state_simpl;
        [ match goal with |- context [write_csv ?f ?c ?m ?w0] =>
            pose proof (write_csv_log f c m w0) as Hw;
            destruct (write_csv f c m w0) as [[e' |] w2]
          end; cbn [fst snd] in *; state_simpl | .. ];
        cbn [fst snd];
        (erewrite emitted_app
           by (state_simpl; rewrite ?Hw; state_simpl; rewrite Hlog, <- ?app_assoc; reflexivity));
        cbn [shown_samples]; eauto.
    + cbn [fst snd].
      erewrite emitted_app by (state_simpl; rewrite <- ?app_assoc; reflexivity).
      cbn [shown_samples]; eauto.
  - intros after ->. unfold measure_power. rewrite Hc, Ht. cbn [loop]. state_simpl.
    rewrite Hlt. unfold body; cbn [tick_read tick_sleep wait_read]. rewrite Hnz.
    state_simpl. cbn [fst snd app]. eauto.
  - intros w'. unfold measure_power. rewrite Hc. state_simpl.
    match goal with |- context [loop ?i ?d ?e ?s ?evs ?cp ?ms ?w0] =>
      pose proof (loop_exit_first_sample i d e s evs w0) as Hfirst;
      destruct (loop i d e s evs cp ms w0) as [ms' w1 | ms' w1 | e' w1 | w1]
    end; try discriminate.
    destruct (Hfirst ms' w1) as (ev' & rest' & pw' & more & Hev & Hrec & ->);
      [state_simpl; unfold usec; lia | reflexivity |].
    rewrite Ht in Hev. inversion Hev; subst ev' rest'.
    cbn [tick_read wait_read recorded_power] in *. inversion Hrec; subst pw'. state_simpl.
    intros H. exists more. unfold write_csv in H.
    destruct (env_fault env) as [| | k cut]; try discriminate.
    inversion H; subst; state_simpl. cbn [csv_lines map row_of timestamp power].
    rewrite lookup_insert_eq; reflexivity.
Qed.

Lemma first_pass_decides_witness :
  let w0 := advance (Z.of_N 0)
              (emit (Port (P110 (username (tapo_config world0)) (password (tapo_config world0))
                                "192.168.0.10"))
                    world0) in
  let run := measure_power env_first_read_fails "192.168.0.10" 1000000 3 "out.csv" world0 in
  match tick_read (mkTick (ReadRaises TimeoutError 5000000) (SleepDone 0)) with
  | ReadRaises _ _ =>
      run.1 = Raised UnboundLocalError
      ∧ shown_samples (emitted world0 run.2) = []
      ∧ fs run.2 = fs world0
  | ReadOk pw rlat =>
      let s := mkSample (wall world0 (clock world0 + Z.of_N 0 + Z.of_N rlat)) pw in
      (∃ more, shown_samples (emitted world0 run.2) = s :: more)
      ∧ (∀ after, tick_sleep (mkTick (ReadRaises TimeoutError 5000000) (SleepDone 0))
                  = SleepCancelled after →
           run.1 = Returned true
           ∧ ∃ w1, loop 1000000 3 (clock w0 + 3 * usec) (wall w0 (clock w0))
                        (env_ticks env_first_read_fails) None [] w0
                   = LoopBreak [s] w1)
      ∧ (∀ w', run = (Returned false, w') →
           ∃ more, fs w' !! "out.csv"
                   = Some (CsvFile (header :: row_of s :: map row_of more)))
  end.
Proof.
  apply (first_pass_decides env_first_read_fails "192.168.0.10" 1000000 3 "out.csv" world0
           0%N (mkTick (ReadRaises TimeoutError 5000000) (SleepDone 0))
           [ok_tick 100; ok_tick 100]);
    [lia | reflexivity | reflexivity].
Defined.


(** With a duration shorter than the interval the loop is left after its
    first pass. *)
Lemma loop_exit_short interval duration end_time start_time evs w ms' w' :
  clock w < end_time →
  end_time < clock w + interval →
  loop interval duration end_time start_time evs None [] w = LoopExit ms' w' →
  ∃ s, ms' = [s].
Proof.
  intros Hd Hi H. destruct evs as [| ev rest]; cbn in H;
    destruct (Z.ltb_spec (clock w) end_time); try lia; try discriminate.
  destruct (body interval duration start_time ev None [] w) as [cp1 ms1 w1 | |] eqn:Hb;
    try discriminate.
  pose proof (body_continue_clock _ _ _ _ _ _ _ _ _ _ Hb) as Hclock.
  apply body_continue_sample in Hb as (pw & Hrec & _ & ->).
  assert (Hw : 0 ≤ tick_wait ev).
  { unfold tick_wait. destruct (tick_sleep ev); lia. }
  destruct rest as [| ev' rest]; cbn in H;
    destruct (Z.ltb_spec (clock w1) end_time); try lia;
    inversion H; subst; cbn; eauto.
Qed.



(** ** C9: the progress reports *)

Lemma quot_nonneg a b : 0 < b → (0 ≤ Z.quot a b ↔ - b < a).
Proof.
  intros Hb. destruct (Z.le_gt_cases 0 a) as [Ha | Ha].
  - split; [lia | intros _; apply Z.quot_pos; lia].
  - replace a with (- (- a)) at 1 by lia. rewrite Z.quot_opp_l by lia.
    pose proof (Z.quot_pos (- a) b ltac:(lia) Hb) as Hq.
    pose proof (Z.quot_small_iff (- a) b ltac:(lia)) as Hs.
    rewrite Z.abs_eq in Hs by lia. rewrite Z.abs_eq in Hs by lia.
    split; intros H.
    + assert (Hz : (- a) ÷ b = 0) by lia. apply Hs in Hz. lia.
    + assert (Hz : (- a) ÷ b = 0) by (apply Hs; lia). lia.
Qed.

Lemma progress_value_eq duration now start :
  0 < duration →
  progress_value duration (total_seconds now start)
  = ((now - start) * 1 * 1 * 100 # 1 * 1000000 * Z.to_pos duration * 1)%Q.
Proof. intros Hd. destruct duration as [| p | p]; try lia. reflexivity. Qed.

Lemma remaining_time_eq duration now start :
  remaining_time duration (total_seconds now start)
  = Z.quot (duration * 1000000 - (now - start)) 1000000.
Proof.
  unfold remaining_time, py_int, total_seconds, Qminus, Qplus, Qopp, Qdiv, Qmult,
    Qinv, inject_Z, usec.
  cbn [Qnum Qden]. f_equal. lia.
Qed.

(** The two numbers of a report as functions of the elapsed time. *)
Lemma report_bounds duration now start :
  0 < duration →
  ((0 <= progress_value duration (total_seconds now start))%Q ↔ 0 ≤ now - start)
  ∧ ((progress_value duration (total_seconds now start) <= 100)%Q
     ↔ now - start ≤ duration * usec)
  ∧ (0 ≤ remaining_time duration (total_seconds now start)
     ↔ now - start < (duration + 1) * usec).
Proof.
  intros Hd. rewrite progress_value_eq, remaining_time_eq by exact Hd.
  rewrite quot_nonneg by lia. unfold Qle, usec. cbn [Qnum Qden].
  rewrite !Pos2Z.inj_mul, Z2Pos.id by exact Hd.
  repeat split; intros; nia.
Qed.


(** The wall clock goes by the settings of the machine.  Set back by an
    hour between the start of a ten-second session and its first sample,
    taken a tenth of a second later, it yields an elapsed time of -3599.9
    seconds: a progress of -35999 percent. *)
Lemma progress_negative_when_clock_set_back :
  ∃ v, In (Ui (ProgressBar v)) (log run_clock_set_back.2)
       ∧ (v == -35999 # 1)%Q
       ∧ ¬ (0 <= v)%Q.
Proof.
  vm_compute. eexists. split; [right; right; left; reflexivity |].
  split; [reflexivity |]. intros H. apply H. reflexivity.
Qed.



(** ** C4: starting while a session is active *)

(** C4, as stated, fails: a second start while the first session is still
    active is not rejected; it creates a second task, so two sessions are
    active at once (both aimed at the same file, which does not exist yet). *)
Lemma second_start_not_rejected :
  let w1 := (start_measurement_threadsafe world0).2 in
  tasks w1 = [task0]
  ∧ measurement_task w1 = Some task0
  ∧ (start_measurement_threadsafe w1).1 = BeginTask task0
  ∧ tasks (start_measurement_threadsafe w1).2 = [task0; task0].
Proof. vm_compute. repeat split; reflexivity. Qed.

(** C4, amended.  [start_measurement_threadsafe] never looks at the task
    handle or at the tasks that are active: started with a session active
    (handle [h], active tasks [ts]) it does what it does with none.  When it
    creates a task, the task joins the active ones and replaces the handle.
    Its one guard against a second start is that it disables the widgets,
    the start button among them. *)
Theorem start_ignores_active_session w h ts :
  let r := start_measurement_threadsafe w in
  let r' := start_measurement_threadsafe (set_tasks h ts w) in
  r'.1 = r.1
  ∧ fs r'.2 = fs r.2
  ∧ (∀ t, r.1 = BeginTask t → tasks r'.2 = ts ++ [t] ∧ measurement_task r'.2 = Some t)
  ∧ In (Ui (SetAllWidgetsState Disabled)) (emitted (set_tasks h ts w) r'.2).
Proof.
  unfold start_measurement_threadsafe, measure_power_async_begin, makedirs.
  state_simpl.
  destruct (interval_var (form w)) as [i |];
    [destruct (duration_var (form w)) as [d |] |];
    [destruct (bool_decide _ || bool_decide _) | |]; state_simpl;
    [ |
      destruct (_ !! folder_var (form w)) as [[| c | rows] |];
      [ | | | destruct (decide (folder_var (form w) = "")) ]; state_simpl;
      try destruct (get_unique_filename _ _ _) as [csv_path |]; state_simpl
    | | ];
    cbn [fst snd]; state_simpl;
    (split; [reflexivity |]); (split; [reflexivity |]);
    (split; [intros t Ht; inversion Ht; subst; split; reflexivity |]);
    (erewrite emitted_app; [| state_simpl; rewrite <- ?app_assoc; reflexivity]);
    find_in.
Qed.

(** ** C7: what happens before a configuration is rejected *)




(** ** More on the loop: what a session records *)

(** One pass of the body: the sample it appends, what it shows, and that it
    leaves the state of the widgets alone. *)
Lemma body_pass interval duration start_time ev cp ms w :
  let s pw := mkSample (wall w (clock w + Z.of_N (wait_read (tick_read ev)))) pw in
  match body interval duration start_time ev cp ms w with
  | BodyContinue cp' ms' w' =>
      ∃ pw l, recorded_power cp (tick_read ev) = Some pw
              ∧ cp' = Some pw
              ∧ ms' = ms ++ [s pw]
              ∧ log w' = log w ++ l
              ∧ shown_samples l = [s pw]
              ∧ last_widgets_state l = None
  | BodyBreak ms' w' =>
      ∃ pw l, recorded_power cp (tick_read ev) = Some pw
              ∧ ms' = ms ++ [s pw]
              ∧ log w' = log w ++ l
              ∧ shown_samples l = [s pw]
              ∧ last_widgets_state l = None
  | BodyRaise e w' =>
      ∃ l, log w' = log w ++ l ∧ last_widgets_state l = None
  end.
Proof.
  unfold body. destruct ev as [[pw lat | e lat] sl];
    cbn [tick_read tick_sleep wait_read recorded_power];
    [ | destruct cp as [pw |] ];
    try destruct (duration =? 0); try destruct sl as [late | after];
    state_simpl; rewrite <- ?app_assoc;
    repeat eexists; reflexivity.
Qed.

(** What the loop has recorded when it is left by its condition or by
    [break]: the new samples are the ones shown in the terminal, and their
    power column is the running last good answer of the device. *)
Lemma loop_run interval duration end_time start_time evs :
  ∀ cp ms w,
    match loop interval duration end_time start_time evs cp ms w with
    | LoopExit ms' w' | LoopBreak ms' w' =>
        ∃ new l, ms' = ms ++ new
                 ∧ log w' = log w ++ l
                 ∧ shown_samples l = new
                 ∧ last_widgets_state l = None
                 ∧ Some <$> (power <$> new)
                   = fallback_series cp (tick_read <$> take (length new) evs)
    | LoopRaise _ w' | LoopPending w' =>
        ∃ l, log w' = log w ++ l ∧ last_widgets_state l = None
    end.
Proof.
  induction evs as [| ev evs IH]; intros cp ms w; cbn [loop].
  - destruct (clock w <? end_time).
    + exists []. by rewrite app_nil_r.
    + exists [], []. rewrite !app_nil_r. repeat split; try done.
  - destruct (clock w <? end_time).
    2: { exists [], []. rewrite !app_nil_r. repeat split; try done. }
    pose proof (body_pass interval duration start_time ev cp ms w) as Hb.
    destruct (body interval duration start_time ev cp ms w)
      as [cp1 ms1 w1 | ms1 w1 | e w1] eqn:Hbody; cbn zeta in Hb.
    + destruct Hb as (pw & l & Hrec & -> & -> & Hlog & Hshown & Hlast).
      specialize (IH (Some pw) (ms ++ [mkSample (wall w (clock w + Z.of_N (wait_read (tick_read ev)))) pw]) w1).
      destruct (loop _ _ _ _ evs _ _ w1) as [ms' w' | ms' w' | e w' | w'].
      1, 2: destruct IH as (new & l' & -> & Hlog' & Hshown' & Hlast' & Hser);
        eexists (_ :: new), (l ++ l');
        rewrite <- app_assoc, Hlog', Hlog, <- app_assoc, shown_samples_app, Hshown, Hshown',
          last_widgets_state_app, Hlast', Hlast;
        (repeat split; try done;
         cbn [length take fmap list_fmap fallback_series]; rewrite Hrec;
         cbn [power]; f_equal; exact Hser).
      1, 2: destruct IH as (l' & Hlog' & Hlast'); exists (l ++ l');
        rewrite Hlog', Hlog, <- app_assoc, last_widgets_state_app, Hlast', Hlast; done.
    + destruct Hb as (pw & l & Hrec & -> & Hlog & Hshown & Hlast).
      eexists [_], l. repeat split; try done.
      cbn. by rewrite Hrec.
    + exact Hb.
Qed.

Lemma body_continue_wall interval duration start_time ev cp ms w cp' ms' w' :
  body interval duration start_time ev cp ms w = BodyContinue cp' ms' w' →
  wall w' = wall w.
Proof.
  unfold body. destruct ev as [[pw lat | e lat] sl];
    cbn [tick_read tick_sleep wait_read];
    [ | destruct cp as [pw |] ];
    try destruct (duration =? 0); try destruct sl as [late | after];
    intros H; inversion H; subst; reflexivity.
Qed.

(** As long as the wall clock keeps pace with the loop clock, the samples
    of the loop are at least an interval apart and none is older than the
    start of the loop. *)
Lemma loop_spaced interval duration end_time start_time evs :
  ∀ cp ms w ms' w',
    keeps_pace (wall w) →
    loop interval duration end_time start_time evs cp ms w = LoopExit ms' w' →
    ∃ new, ms' = ms ++ new
           ∧ spaced (Z.max 0 interval) new
           ∧ (∀ s, head new = Some s → wall w (clock w) ≤ timestamp s).
Proof.
  induction evs as [| ev evs IH]; intros cp ms w ms' w' Hpace H; cbn [loop] in H.
  - destruct (clock w <? end_time); inversion H; subst.
    exists []. rewrite app_nil_r. repeat split; done.
  - destruct (clock w <? end_time).
    2: { inversion H; subst. exists []. rewrite app_nil_r. repeat split; done. }
    destruct (body interval duration start_time ev cp ms w) as [cp1 ms1 w1 | |] eqn:Hb;
      try discriminate.
    pose proof (body_continue_clock _ _ _ _ _ _ _ _ _ _ Hb) as Hclock.
    pose proof (body_continue_wall _ _ _ _ _ _ _ _ _ _ Hb) as Hwall.
    apply body_continue_sample in Hb as (pw & _ & _ & ->).
    apply IH in H as (new & -> & Hsp & Hhd); [| by rewrite Hwall].
    rewrite Hwall, Hclock in Hhd.
    eexists (_ :: new). rewrite <- app_assoc. split; [reflexivity |].
    assert (Hr : Z.of_N (wait_read (tick_read ev)) ≤ tick_wait ev)
      by (unfold tick_wait; destruct (tick_sleep ev); lia).
    split.
    + destruct new as [| s' new]; [done |]. split; [| exact Hsp].
      specialize (Hhd s' eq_refl). cbn [timestamp].
      pose proof (Hpace (clock w + Z.of_N (wait_read (tick_read ev)))
                        (clock w + Z.max 0 interval + tick_wait ev) ltac:(lia)).
      lia.
    + intros s [= <-]. cbn [timestamp].
      pose proof (Hpace (clock w) (clock w + Z.of_N (wait_read (tick_read ev))) ltac:(lia)).
      lia.
Qed.

(** A session that completes: the loop was left by its condition, the file
    holds what the loop has collected, and the log ends with the three
    steps of the success path. *)
Lemma measure_power_completed env tapo_ip interval duration csv_name w w' :
  measure_power env tapo_ip interval duration csv_name w = (Returned false, w') →
  ∃ lat ms w1,
    env_connect env = ConnectOk lat
    ∧ loop interval duration (clock w + Z.of_N lat + duration * usec)
           (wall w (clock w + Z.of_N lat)) (env_ticks env) None []
           (advance (Z.of_N lat)
              (emit (Port (P110 (username (tapo_config w)) (password (tapo_config w)) tapo_ip)) w))
      = LoopExit ms w1
    ∧ fs w' = <[csv_name := CsvFile (csv_lines ms)]> (fs w)
    ∧ log w' = log w1 ++ [Ui (ProgressBar 100); Ui (ShowInfo "Success" csv_name);
                          Ui (SetAllWidgetsState Normal)].
Proof.
  unfold measure_power. destruct (env_connect env) as [lat | e lat]; [| discriminate].
  state_simpl.
  match goal with |- context [loop ?i ?d ?e ?s ?evs ?cp ?ms ?w0] =>
    destruct (loop_effects i d e s evs cp ms w0) as (l & _ & Hfs & _);
    destruct (loop i d e s evs cp ms w0) as [ms' w1 | ms' w1 | e' w1 | w1] eqn:Hloop
  end; try discriminate.
  state_simpl. unfold write_csv. intros H. exists lat, ms', w1.
  split; [reflexivity |]. split; [exact Hloop |].
  destruct (env_fault env) as [| | k cut]; try discriminate.
  inversion H; subst; state_simpl.
  rewrite Hfs, <- !app_assoc; split; reflexivity.
Qed.

(** ** C3: what a session leaves at the final path *)




(** ** What a completed session has written *)

(** X1.  As long as the wall clock keeps pace with the loop clock (it is
    not set back nor slowed down during the session), consecutive rows of
    the file of a completed session are at least one interval apart in time
    (so the timestamps strictly increase when the interval is positive), and
    no row is older than the start of the session. *)
Theorem completed_rows_spaced env tapo_ip interval duration csv_name w w' :
  keeps_pace (wall w) →
  measure_power env tapo_ip interval duration csv_name w = (Returned false, w') →
  ∃ ms, fs w' !! csv_name = Some (CsvFile (csv_lines ms))
        ∧ spaced (Z.max 0 interval) ms
        ∧ ∀ s, head ms = Some s → wall w (clock w) ≤ timestamp s.
Proof.
  intros Hpace H.
  apply measure_power_completed in H as (lat & ms & w1 & _ & Hloop & Hfs & _).
  apply loop_spaced in Hloop as (new & Hms & Hsp & Hhd); [| exact Hpace].
  cbn in Hms. subst new. exists ms. rewrite Hfs, lookup_insert_eq.
  split; [reflexivity |]. split; [exact Hsp |].
  intros s Hs. specialize (Hhd s Hs). state_simpl.
  pose proof (Hpace (clock w) (clock w + Z.of_N lat) ltac:(lia)). lia.
Qed.

Lemma completed_rows_spaced_witness :
  keeps_pace (wall world0)
  ∧ ∃ w', measure_power env_three_ticks "192.168.0.10" 1000000 3 "out.csv" world0
          = (Returned false, w')
          ∧ ∃ ms, fs w' !! "out.csv" = Some (CsvFile (csv_lines ms))
                  ∧ spaced (Z.max 0 1000000) ms
                  ∧ ∀ s, head ms = Some s → wall world0 (clock world0) ≤ timestamp s.
Proof.
  assert (Hpace : keeps_pace (wall world0)) by (intros t t' Ht; cbn; lia).
  split; [exact Hpace |].
  eexists. split; [vm_compute; reflexivity |].
  apply (completed_rows_spaced env_three_ticks "192.168.0.10" 1000000 3 "out.csv" world0);
    [exact Hpace | vm_compute; reflexivity].
Defined.

(** X3.  The power column of the file of a completed session is the running
    last good answer of the device: pass by pass, the value the device
    returned, or, when the read raised, the value of the row before. *)
Theorem completed_power_column env tapo_ip interval duration csv_name w w' :
  measure_power env tapo_ip interval duration csv_name w = (Returned false, w') →
  ∃ ms, fs w' !! csv_name = Some (CsvFile (csv_lines ms))
        ∧ Some <$> (power <$> ms)
          = fallback_series None (tick_read <$> take (length ms) (env_ticks env)).
Proof.
  intros H. apply measure_power_completed in H as (lat & ms & w1 & _ & Hloop & Hfs & _).
  match type of Hloop with loop ?i ?d ?e ?s ?evs ?cp ?ms0 ?w0 = _ =>
    pose proof (loop_run i d e s evs cp ms0 w0) as Hrun
  end.
  rewrite Hloop in Hrun. destruct Hrun as (new & l & Hms & _ & _ & _ & Hser).
  cbn in Hms. subst new. exists ms. rewrite Hfs, lookup_insert_eq. split; [reflexivity | exact Hser].
Qed.

(** A device that fails on the second and the fourth of five reads. *)
Lemma completed_power_column_witness :
  let env := mkEnv (ConnectOk 0)
                   [ok_tick 100; mkTick (ReadRaises TimeoutError 0) (SleepDone 0);
                    ok_tick 120; mkTick (ReadRaises DeviceError 0) (SleepDone 0);
                    ok_tick 140] NoFault in
  ∃ w', measure_power env "192.168.0.10" 1000000 5 "out.csv" world0 = (Returned false, w')
        ∧ fs w' !! "out.csv"
          = Some (CsvFile [header; DataRow 0 100; DataRow 1000000 100; DataRow 2000000 120;
                           DataRow 3000000 120; DataRow 4000000 140])
        ∧ ∃ ms, fs w' !! "out.csv" = Some (CsvFile (csv_lines ms))
                ∧ Some <$> (power <$> ms)
                  = fallback_series None (tick_read <$> take (length ms) (env_ticks env)).
Proof.
  intros env. eexists. split; [vm_compute; reflexivity |].
  split; [vm_compute; reflexivity |].
  apply (completed_power_column env "192.168.0.10" 1000000 5 "out.csv" world0).
  vm_compute; reflexivity.
Defined.

(** X4.  The data rows of the file of a completed session are exactly the
    samples that were shown in the terminal widget during the session, in
    the same order. *)
Theorem completed_rows_were_shown env tapo_ip interval duration csv_name w w' :
  measure_power env tapo_ip interval duration csv_name w = (Returned false, w') →
  fs w' !! csv_name = Some (CsvFile (csv_lines (shown_samples (emitted w w')))).
Proof.
  intros H. apply measure_power_completed in H as (lat & ms & w1 & _ & Hloop & Hfs & Hlog).
  match type of Hloop with loop ?i ?d ?e ?s ?evs ?cp ?ms0 ?w0 = _ =>
    pose proof (loop_run i d e s evs cp ms0 w0) as Hrun
  end.
  rewrite Hloop in Hrun. destruct Hrun as (new & l & Hms & Hlog1 & Hshown & _).
  cbn in Hms. subst new. state_simpl.
  erewrite emitted_app by (rewrite Hlog, Hlog1, <- !app_assoc; reflexivity).
  rewrite !shown_samples_app, Hshown. cbn [shown_samples app]. rewrite app_nil_r.
  rewrite Hfs. apply lookup_insert_eq.
Qed.

Lemma completed_rows_were_shown_witness :
  ∃ w', measure_power env_three_ticks "192.168.0.10" 1000000 3 "out.csv" world0
        = (Returned false, w')
        ∧ fs w' !! "out.csv" = Some (CsvFile (csv_lines (shown_samples (emitted world0 w')))).
Proof.
  eexists. split; [vm_compute; reflexivity |].
  apply (completed_rows_were_shown env_three_ticks "192.168.0.10" 1000000 3 "out.csv" world0).
  vm_compute; reflexivity.
Defined.

(** ** When the form is usable again *)

Lemma measure_power_widgets env tapo_ip interval duration csv_name w :
  let r := measure_power env tapo_ip interval duration csv_name w in
  ∃ l, log r.2 = log w ++ l
       ∧ last_widgets_state l
         = if decide (r.1 = Returned false) then Some Normal else None.
Proof.
  unfold measure_power.
  destruct (env_connect env) as [lat | e lat].
  2: { eexists; state_simpl; split; reflexivity. }
  match goal with |- context [loop ?i ?d ?e ?s ?evs ?cp ?ms ?w0] =>
    pose proof (loop_run i d e s evs cp ms w0) as Hrun;
    destruct (loop i d e s evs cp ms w0) as [ms' w1 | ms' w1 | e' w1 | w1]
  end; cbn [fst snd]; state_simpl.
  - destruct Hrun as (new & l & _ & Hlog & _ & Hlast & _).
    match goal with |- context [write_csv ?f ?c ?m ?w0] =>
      pose proof (write_csv_log f c m w0) as Hw;
      destruct (write_csv f c m w0) as [[e' |] w2]
    end; state_simpl; cbn [fst snd] in *;
      state_simpl; rewrite ?Hw, Hlog, <- ?app_assoc;
      (eexists; split; [reflexivity |]);
      rewrite !last_widgets_state_app, Hlast; reflexivity.
  - destruct Hrun as (new & l & _ & Hlog & _ & Hlast & _).
    rewrite Hlog, <- ?app_assoc. eexists; split; [reflexivity |].
    rewrite last_widgets_state_app, Hlast. reflexivity.
  - destruct Hrun as (l & Hlog & Hlast).
    rewrite Hlog, <- ?app_assoc. eexists; split; [reflexivity |].
    rewrite last_widgets_state_app, Hlast. reflexivity.
  - destruct Hrun as (l & Hlog & Hlast).
    rewrite Hlog, <- ?app_assoc. eexists; split; [reflexivity |].
    rewrite last_widgets_state_app, Hlast. reflexivity.
Qed.

(** X5.  [measure_power_async] disables the widgets first; they are set
    back to normal when the start is rejected for a missing address or file
    name and when the session completes, and in no other case: after a
    [ValueError], a failed connection, an exception out of the loop, a write
    error or a cancellation the last word on the widgets is "disabled". *)
Theorem widgets_after_session env w :
  let r := measure_power_async env w in
  last_widgets_state (emitted w r.2)
  = Some (match r.1 with
          | AsyncReject | AsyncDone (Returned false) => Normal
          | _ => Disabled
          end).
Proof.
  unfold measure_power_async, measure_power_async_begin, makedirs. state_simpl.
  destruct (interval_var (form w)) as [i |];
    [destruct (duration_var (form w)) as [d |] |];
    [destruct (bool_decide _ || bool_decide _) | |]; state_simpl;
    [ |
      destruct (_ !! folder_var (form w)) as [[| c | rows] |];
      [ | | | destruct (decide (folder_var (form w) = "")) ]; state_simpl;
      try destruct (get_unique_filename _ _ _) as [csv_path |]; state_simpl
    | | ];
    cbn [fst snd]; state_simpl;
    try (erewrite emitted_app by (state_simpl; rewrite <- ?app_assoc; reflexivity);
         reflexivity).
  all: match goal with |- context [measure_power ?e ?a ?b ?c ?p ?w0] =>
         destruct (measure_power_widgets e a b c p w0) as (l & Hlog & Hlast);
         destruct (measure_power e a b c p w0) as [[[] | ex |] w1]
       end; cbn [fst snd] in *; state_simpl;
       try destruct ex; cbn [fst snd]; state_simpl;
       (erewrite emitted_app by (state_simpl; rewrite Hlog; state_simpl;
                                  rewrite <- ?app_assoc; reflexivity));
       rewrite ?last_widgets_state_app; cbn [last_widgets_state];
       rewrite ?last_widgets_state_app, Hlast; reflexivity.
Qed.

(** ** The file name of a session *)

Lemma probe_result fuel m folder base :
  ∀ counter csv_path p,
    probe fuel m folder base counter csv_path = Some p →
    m !! p = None
    ∧ ((p = csv_path)
       ∨ (is_Some (m !! csv_path)
          ∧ ∃ k, (counter ≤ k)%nat
                 ∧ p = candidate folder base k
                 ∧ ∀ j, (counter ≤ j < k)%nat → is_Some (m !! candidate folder base j))).
Proof.
  induction fuel as [| fuel IH]; intros counter csv_path p H; cbn [probe] in H;
    unfold path_exists in H; case_bool_decide as Hex; try discriminate.
  - inversion H; subst. split; [| left; reflexivity].
    apply eq_None_not_Some. exact Hex.
  - apply IH in H as (Hfree & [-> | (Hc & k & Hk & -> & Hbelow)]).
    + split; [exact Hfree |]. right. split; [exact Hex |].
      exists counter. split; [lia |]. split; [reflexivity |]. intros j ?; lia.
    + split; [exact Hfree |]. right. split; [exact Hex |].
      exists k. split; [lia |]. split; [reflexivity |].
      intros j Hj. destruct (decide (j = counter)) as [-> | ?]; [exact Hc |].
      apply Hbelow. lia.
  - inversion H; subst. split; [| left; reflexivity].
    apply eq_None_not_Some. exact Hex.
Qed.

(** X6.  [get_unique_filename] always returns, and what it returns is a
    path at which nothing exists: the plain name [folder/filename.csv] when
    that is free, and otherwise the name with the least suffix [_k], counted
    from 1, that is free. *)
Theorem get_unique_filename_first_free m folder filename :
  ∃ p, get_unique_filename m folder filename = Some p
       ∧ m !! p = None
       ∧ ((p = path_join folder (filename +:+ ".csv"))
          ∨ (is_Some (m !! path_join folder (filename +:+ ".csv"))
             ∧ ∃ k, (1 ≤ k)%nat
                    ∧ p = candidate folder filename k
                    ∧ ∀ j, (1 ≤ j < k)%nat → is_Some (m !! candidate folder filename j))).
Proof.
  destruct (get_unique_filename_total m folder filename) as [p Hp].
  exists p. split; [exact Hp |]. by apply probe_result in Hp.
Qed.

Lemma app_csv_not_config (y : string) : y +:+ ".csv" ≠ "config.json".
Proof.
  intros H. pose proof (f_equal String.length H) as Hlen.
  rewrite string_length_app in Hlen. cbn in Hlen.
  do 8 (destruct y as [| ? y]; [cbn in Hlen; try lia |]);
    [| cbn [String.length] in Hlen; lia].
  rewrite !string_app_cons in H. inversion H.
Qed.

Lemma string_app_assoc (a b c : string) : (a +:+ b) +:+ c = a +:+ b +:+ c.
Proof.
  induction a as [| x a IH]; [reflexivity |].
  rewrite !string_app_cons. by rewrite IH.
Qed.

Lemma path_join_csv_not_config folder (name : string) :
  path_join folder (name +:+ ".csv") ≠ "config.json".
Proof.
  unfold path_join.
  destruct (String.prefix _ _); [apply app_csv_not_config |].
  destruct (decide (folder = "")); [apply app_csv_not_config |].
  destruct (ends_with_slash folder).
  - rewrite <- string_app_assoc. apply app_csv_not_config.
  - rewrite <- (string_app_assoc "/"), <- string_app_assoc. apply app_csv_not_config.
Qed.

Lemma get_unique_filename_not_config m folder filename p :
  get_unique_filename m folder filename = Some p → p ≠ "config.json".
Proof.
  intros H. apply probe_result in H as (_ & [-> | (_ & k & _ & -> & _)]).
  - apply path_join_csv_not_config.
  - unfold candidate.
    rewrite <- (string_app_assoc "_"), <- (string_app_assoc filename).
    apply path_join_csv_not_config.
Qed.

(** What a start that creates a task has done before. *)
Lemma begin_task_inv w t w0 :
  measure_power_async_begin w = (BeginTask t, w0) →
  fs w0 !! task_csv t = None
  ∧ task_csv t ≠ "config.json"
  ∧ measurement_task w0 = Some t
  ∧ fs w0 !! "config.json" = Some (JsonFile (tapo_config w0))
  ∧ (∀ p, is_Some (fs w !! p) → p ≠ "config.json" → fs w0 !! p = fs w !! p).
Proof.
  unfold measure_power_async_begin, makedirs. state_simpl.
  destruct (interval_var (form w)) as [i |]; [| discriminate].
  destruct (duration_var (form w)) as [d |]; [| discriminate].
  destruct (bool_decide _ || bool_decide _); [discriminate |]. state_simpl.
  destruct (_ !! folder_var (form w)) as [[| c | rows] |] eqn:Hfolder;
    [ | discriminate | discriminate | destruct (decide (folder_var (form w) = "")) ];
    try discriminate; state_simpl;
    (destruct (get_unique_filename _ _ _) as [csv_path |] eqn:Hu; [| discriminate]);
    intros H; inversion H; subst; clear H; state_simpl; cbn [task_csv];
    pose proof (get_unique_filename_not_config _ _ _ _ Hu) as Hne;
    apply probe_result in Hu as (Hfree & _).
  - repeat split; try done.
    + by rewrite lookup_insert_eq.
    + intros p _ Hp. by rewrite lookup_insert_ne.
  - repeat split; try done.
    + rewrite lookup_insert_ne; [by rewrite lookup_insert_eq |].
      intros Heq. rewrite Heq, lookup_insert_eq in Hfolder. discriminate.
    + intros p [x Hp] Hpc.
      rewrite lookup_insert_ne; [by rewrite lookup_insert_ne |].
      intros Heq. rewrite Heq, lookup_insert_ne in Hfolder by done. congruence.
Qed.

Lemma async_completed_inv env w w' :
  measure_power_async env w = (AsyncDone (Returned false), w') →
  ∃ t w0 wm,
    measure_power_async_begin w = (BeginTask t, w0)
    ∧ measure_power env (task_ip t) (task_interval t) (task_duration t) (task_csv t) w0
      = (Returned false, wm)
    ∧ fs w' = fs wm
    ∧ measurement_task w' = measurement_task wm.
Proof.
  unfold measure_power_async.
  destruct (measure_power_async_begin w) as [[e | | t |] w0]; try discriminate.
  destruct (measure_power _ _ _ _ _ w0) as [[[] | e |] wm] eqn:Hm;
    try destruct e; try discriminate.
  intros H; inversion H; subst. exists t, w0, wm. by state_simpl.
Qed.

Lemma measure_power_frame env tapo_ip interval duration csv_name w :
  let w' := (measure_power env tapo_ip interval duration csv_name w).2 in
  measurement_task w' = measurement_task w
  ∧ tasks w' = tasks w
  ∧ tapo_config w' = tapo_config w
  ∧ form w' = form w.
Proof.
  assert (Hbody : ∀ i d st ev cp ms w0,
             let w1 := body_state (body i d st ev cp ms w0) in
             measurement_task w1 = measurement_task w0 ∧ tasks w1 = tasks w0
             ∧ tapo_config w1 = tapo_config w0 ∧ form w1 = form w0).
  { intros i d st [[pw lat | e lat] sl] cp ms w0; unfold body;
      cbn [tick_read tick_sleep wait_read];
      [ | destruct cp as [pw |] ];
      try destruct (d =? 0); try destruct sl; by state_simpl. }
  assert (Hloop : ∀ i d e st evs cp ms w0,
             let w1 := loop_state (loop i d e st evs cp ms w0) in
             measurement_task w1 = measurement_task w0 ∧ tasks w1 = tasks w0
             ∧ tapo_config w1 = tapo_config w0 ∧ form w1 = form w0).
  { intros i d e st evs. induction evs as [| ev evs IH]; intros cp ms w0; cbn [loop];
      destruct (clock w0 <? e); try done.
    specialize (Hbody i d st ev cp ms w0).
    destruct (body i d st ev cp ms w0) as [cp1 ms1 w1 | ms1 w1 | ex w1]; state_simpl;
      try done.
    specialize (IH cp1 ms1 w1). cbn zeta in IH.
    destruct IH as (-> & -> & -> & ->). exact Hbody. }
  unfold measure_power. destruct (env_connect env) as [lat | e lat]; [| by state_simpl].
  match goal with |- context [loop ?i ?d ?e ?s ?evs ?cp ?ms ?w0] =>
    specialize (Hloop i d e s evs cp ms w0);
    destruct (loop i d e s evs cp ms w0) as [ms' w1 | ms' w1 | e' w1 | w1]
  end; state_simpl; try exact Hloop.
  unfold write_csv. destruct (env_fault env) as [| | k cut];
    state_simpl; exact Hloop.
Qed.

(** X7.  Two sessions run one after the other to completion write two
    different files, whatever the form says: the second session picks a name
    that is free, and the file of the first is still there, unchanged, when
    the second has ended. *)
Theorem sequential_sessions_distinct_files env1 env2 w w1 w2 :
  measure_power_async env1 w = (AsyncDone (Returned false), w1) →
  measure_power_async env2 w1 = (AsyncDone (Returned false), w2) →
  ∃ t1 t2 rows1 rows2,
    measurement_task w1 = Some t1
    ∧ measurement_task w2 = Some t2
    ∧ task_csv t1 ≠ task_csv t2
    ∧ fs w1 !! task_csv t1 = Some (CsvFile rows1)
    ∧ fs w2 !! task_csv t1 = Some (CsvFile rows1)
    ∧ fs w2 !! task_csv t2 = Some (CsvFile rows2).
Proof.
  intros H1 H2.
  apply async_completed_inv in H1 as (t1 & wa & wb & Hb1 & Hm1 & Hfs1 & Hh1).
  apply async_completed_inv in H2 as (t2 & wc & wd & Hb2 & Hm2 & Hfs2 & Hh2).
  apply begin_task_inv in Hb1 as (_ & Hne1 & Ht1 & _ & _).
  apply begin_task_inv in Hb2 as (Hfree2 & _ & Ht2 & _ & Hkeep2).
  pose proof (measure_power_frame env1 (task_ip t1) (task_interval t1) (task_duration t1)
                (task_csv t1) wa) as (Hf1 & _).
  pose proof (measure_power_frame env2 (task_ip t2) (task_interval t2) (task_duration t2)
                (task_csv t2) wc) as (Hf2 & _).
  rewrite Hm1 in Hf1. rewrite Hm2 in Hf2. cbn [snd] in Hf1, Hf2.
  apply measure_power_completed in Hm1 as (_ & ms1 & _ & _ & _ & Hw1 & _).
  apply measure_power_completed in Hm2 as (_ & ms2 & _ & _ & _ & Hw2 & _).
  assert (Hfile1 : fs w1 !! task_csv t1 = Some (CsvFile (csv_lines ms1))).
  { by rewrite Hfs1, Hw1, lookup_insert_eq. }
  assert (Hne : task_csv t1 ≠ task_csv t2).
  { intros Heq. rewrite <- Heq, Hkeep2 in Hfree2 by (rewrite ?Hfile1; eauto). congruence. }
  exists t1, t2, (csv_lines ms1), (csv_lines ms2).
  repeat split.
  - congruence.
  - congruence.
  - exact Hne.
  - exact Hfile1.
  - rewrite Hfs2, Hw2, lookup_insert_ne by done.
    rewrite Hkeep2 by (rewrite ?Hfile1; eauto). exact Hfile1.
  - by rewrite Hfs2, Hw2, lookup_insert_eq.
Qed.

Lemma sequential_sessions_distinct_files_witness :
  ∃ w1 w2,
    measure_power_async env_three_ticks world0 = (AsyncDone (Returned false), w1)
    ∧ measure_power_async env_three_ticks w1 = (AsyncDone (Returned false), w2)
    ∧ ∃ t1 t2 rows1 rows2,
        measurement_task w1 = Some t1
        ∧ measurement_task w2 = Some t2
        ∧ task_csv t1 ≠ task_csv t2
        ∧ fs w1 !! task_csv t1 = Some (CsvFile rows1)
        ∧ fs w2 !! task_csv t1 = Some (CsvFile rows1)
        ∧ fs w2 !! task_csv t2 = Some (CsvFile rows2).
Proof.
  do 2 eexists. split; [vm_compute; reflexivity |]. split; [vm_compute; reflexivity |].
  eapply (sequential_sessions_distinct_files env_three_ticks env_three_ticks world0);
    vm_compute; reflexivity.
Defined.

(** ** The settings file *)

(** X8.  [load_config] is idempotent: whatever the first call returns, a
    second call returns the same configuration and changes nothing; and the
    first call changes the file system only by creating a missing settings
    file, filled with the defaults. *)
Theorem load_config_idempotent w c w1 :
  load_config w = (inr c, w1) →
  load_config w1 = (inr c, w1)
  ∧ (fs w1 = fs w
     ∨ (fs w !! "config.json" = None
        ∧ c = default_config
        ∧ fs w1 = <["config.json" := JsonFile default_config]> (fs w))).
Proof.
  unfold load_config.
  destruct (fs w !! "config.json") as [[| c' | rows] |] eqn:Hfile;
    intros H; inversion H; subst; clear H.
  - rewrite Hfile. split; [reflexivity | by left].
  - state_simpl. rewrite lookup_insert_eq. split; [reflexivity |]. right. done.
Qed.

Lemma load_config_idempotent_witness :
  ∃ c w1, load_config world0 = (inr c, w1)
          ∧ load_config w1 = (inr c, w1)
          ∧ (fs w1 = fs world0
             ∨ (fs world0 !! "config.json" = None
                ∧ c = default_config
                ∧ fs w1 = <["config.json" := JsonFile default_config]> (fs world0))).
Proof.
  do 2 eexists. split; [reflexivity |].
  apply (load_config_idempotent world0). reflexivity.
Defined.



(** X10.  When the interval or the duration of the form does not parse,
    [measure_power_async] ends with [ValueError] before anything is saved:
    the file system is untouched, no task is created and the device port is
    not called; but [tapo_config] in memory has already taken the
    credentials and the folder of the form. *)
Theorem unparsable_numbers_raise env w :
  interval_var (form w) = None ∨ duration_var (form w) = None →
  ∃ w', measure_power_async env w = (AsyncRaise ValueError, w')
        ∧ fs w' = fs w
        ∧ tasks w' = tasks w
        ∧ measurement_task w' = measurement_task w
        ∧ (∀ op, ¬ In (Port op) (emitted w w'))
        ∧ username (tapo_config w') = username_var (form w)
        ∧ password (tapo_config w') = password_var (form w)
        ∧ results_folder (tapo_config w') = folder_var (form w).
Proof.
  intros Hnone. unfold measure_power_async, measure_power_async_begin.
  destruct (interval_var (form w)) as [i |];
    [destruct (duration_var (form w)) as [d |] |];
    [exfalso; destruct Hnone; discriminate | |];
    (eexists; split; [reflexivity |]); state_simpl;
    (erewrite emitted_app by (state_simpl; reflexivity));
    repeat split; try reflexivity; in_cases.
Qed.

Lemma unparsable_numbers_raise_witness :
  let w := with_form (mkForm "user" "secret" "run" "./results" "192.168.0.10" None (Some 3))
                     world0 in
  ∃ w', measure_power_async env_three_ticks w = (AsyncRaise ValueError, w')
        ∧ fs w' = fs w
        ∧ tasks w' = tasks w
        ∧ measurement_task w' = measurement_task w
        ∧ (∀ op, ¬ In (Port op) (emitted w w'))
        ∧ username (tapo_config w') = username_var (form w)
        ∧ password (tapo_config w') = password_var (form w)
        ∧ results_folder (tapo_config w') = folder_var (form w).
Proof.
  intros w. apply (unparsable_numbers_raise env_three_ticks w). left. reflexivity.
Defined.

(** ** The address list *)

Lemma py_list_remove_elem x y l : y ∈ py_list_remove x l → y ∈ l.
Proof.
  induction l as [| z l IH]; cbn; [done |].
  destruct (decide (x = z)); [by apply list_elem_of_further |].
  intros [-> | H]%elem_of_cons; [apply list_elem_of_here | apply list_elem_of_further, IH, H].
Qed.

Lemma py_list_remove_NoDup x l :
  NoDup l → NoDup (py_list_remove x l) ∧ x ∉ py_list_remove x l.
Proof.
  induction 1 as [| z l Hz Hl IH]; cbn.
  - split; [constructor | apply not_elem_of_nil].
  - destruct (decide (x = z)) as [-> | Hne]; [done |].
    destruct IH as [IH1 IH2]. split.
    + constructor; [| exact IH1]. intros H%py_list_remove_elem. done.
    + intros [? | ?]%elem_of_cons; done.
Qed.

Lemma py_list_remove_last x l : x ∉ l → py_list_remove x (l ++ [x]) = l.
Proof.
  induction l as [| z l IH]; cbn; intros Hx.
  - by destruct (decide (x = x)).
  - apply not_elem_of_cons in Hx as [Hne Hx].
    destruct (decide (x = z)); [done |]. by rewrite IH.
Qed.



(** X12.  An address list without duplicates and without the empty address
    stays so under [add_ip] and [remove_ip], and after [remove_ip] the
    address that was selected is no longer in the list. *)
Theorem address_list_stays_clean g new_ip :
  let ips g := ip_addresses (tapo_config (gui_state g)) in
  NoDup (ips g) →
  "" ∉ ips g →
  (NoDup (ips (add_ip new_ip g)) ∧ ("" ∉ ips (add_ip new_ip g)))
  ∧ (NoDup (ips (remove_ip g)) ∧ ("" ∉ ips (remove_ip g))
     ∧ (ip_var (form (gui_state g)) ∈ ips g →
        ip_var (form (gui_state g)) ∉ ips (remove_ip g))).
Proof.
  intros ips Hnd Hne. subst ips. cbn beta in *. unfold add_ip, remove_ip. split.
  - destruct new_ip as [ip |]; [| done].
    destruct (bool_decide (ip ≠ "")) eqn:H1; [| done].
    destruct (bool_decide (ip ∉ _)) eqn:H2; [| done].
    apply bool_decide_eq_true in H1, H2.
    cbn [andb]. gui_simpl. split.
    + apply NoDup_app. split; [exact Hnd |]. split; [| apply NoDup_singleton].
      intros x Hx [= ->]%list_elem_of_singleton. done.
    + intros [? | [= ?]%list_elem_of_singleton]%elem_of_app; done.
  - destruct (bool_decide _) eqn:Hin.
    + gui_simpl.
      destruct (py_list_remove_NoDup (ip_var (form (gui_state g))) _ Hnd) as [Hnd' Hout].
      split; [exact Hnd' |]. split; [| done].
      intros H%py_list_remove_elem. done.
    + apply bool_decide_eq_false in Hin. done.
Qed.

Lemma address_list_stays_clean_witness :
  let g := mkGui (set_config (with_ip_addresses ["192.168.0.10"; "192.168.0.12"] config0)
                             world0) [] in
  let ips g := ip_addresses (tapo_config (gui_state g)) in
  (NoDup (ips (add_ip (Some "192.168.0.11") g))
   ∧ ("" ∉ ips (add_ip (Some "192.168.0.11") g)))
  ∧ (NoDup (ips (remove_ip g)) ∧ ("" ∉ ips (remove_ip g))
     ∧ (ip_var (form (gui_state g)) ∈ ips g →
        ip_var (form (gui_state g)) ∉ ips (remove_ip g))).
Proof.
  intros g ips.
  apply (address_list_stays_clean g (Some "192.168.0.11"));
    apply (bool_decide_unpack _); vm_compute; exact I.
Defined.



(** ** The widget tree *)

Lemma widget_nested_ind (P : widget → Prop) :
  (∀ name cls st, P (Leaf name cls st)) →
  (∀ children, Forall P children → P (Frame children)) →
  ∀ wd, P wd.
Proof.
  intros Hleaf Hframe. fix IH 1. intros [name cls st | children].
  - apply Hleaf.
  - apply Hframe. induction children as [| wd children IHc]; constructor.
    + apply IH.
    + exact IHc.
Qed.

Lemma widget_leaves_set state wd :
  widget_leaves (set_widget_state state wd) = retarget state <$> widget_leaves wd.
Proof.
  induction wd as [name cls st | children IH] using widget_nested_ind.
  - cbn. by destruct (is_input cls).
  - cbn [set_widget_state widget_leaves].
    induction IH as [| wd children Hwd _ IHc]; [reflexivity |].
    cbn [map concat]. rewrite fmap_app, Hwd. f_equal. exact IHc.
Qed.

(** X14.  [set_all_widgets_state] reaches every widget below the parent,
    through any number of nested frames, and keeps the tree as it is: name
    by name and in the same order, each button, entry and combobox has the
    new state and every other widget has the state it had. *)
Theorem set_all_widgets_state_leaves state children :
  leaves (set_all_widgets_state state children) = retarget state <$> leaves children.
Proof.
  unfold leaves, set_all_widgets_state.
  induction children as [| wd children IH]; [reflexivity |].
  cbn [map concat]. rewrite fmap_app, widget_leaves_set. f_equal. exact IH.
Qed.

Lemma set_widget_state_twice s1 s2 wd :
  set_widget_state s2 (set_widget_state s1 wd) = set_widget_state s2 wd.
Proof.
  induction wd as [name cls st | children IH] using widget_nested_ind.
  - cbn. destruct (is_input cls) eqn:Hc; cbn; by rewrite Hc.
  - cbn [set_widget_state]. f_equal.
    induction IH as [| wd children Hwd _ IHc]; [reflexivity |].
    cbn [map]. by rewrite Hwd, IHc.
Qed.

(** X15.  The last call of [set_all_widgets_state] wins, and nothing of
    the states before the one before it is kept: disabling and then setting
    to "normal" gives what setting to "normal" alone gives, so a widget that
    was "readonly" or "disabled" before a session is "normal" after it. *)
Theorem set_all_widgets_state_twice s1 s2 children :
  set_all_widgets_state s2 (set_all_widgets_state s1 children)
  = set_all_widgets_state s2 children.
Proof.
  unfold set_all_widgets_state.
  induction children as [| wd children IH]; [reflexivity |].
  cbn [map]. by rewrite set_widget_state_twice, IH.
Qed.

Lemma set_widget_state_inert state wd :
  inert wd = true → set_widget_state state wd = wd.
Proof.
  induction wd as [name cls st | children IH] using widget_nested_ind.
  - cbn. by destruct (is_input cls).
  - cbn [inert set_widget_state]. intros Hall. f_equal.
    induction IH as [| wd children Hwd _ IHc]; [reflexivity |].
    cbn [forallb] in Hall. apply andb_true_iff in Hall as [H1 H2].
    cbn [map]. by rewrite Hwd, IHc.
Qed.

(** X16.  The [set_all_widgets_state] of [measure.py], which looks at the
    children of the root window only, does what the recursive one of
    [tapo_measure_tool.py] does whenever the frames below the root hold no
    button, entry or combobox. *)
Theorem set_all_widgets_state_flat_agrees state children :
  frames_inert children →
  set_all_widgets_state_flat state children = set_all_widgets_state state children.
Proof.
  unfold frames_inert, set_all_widgets_state_flat, set_all_widgets_state.
  induction children as [| wd children IH]; intros Hin; [reflexivity |].
  cbn [map]. rewrite IH by (intros wd' Hwd'; apply Hin, list_elem_of_further, Hwd').
  f_equal. specialize (Hin wd (list_elem_of_here _ _)).
  destruct wd as [name cls st | ch]; [reflexivity |].
  cbn [set_widget_state]. f_equal. symmetry.
  induction ch as [| wd' ch IHch]; [reflexivity |].
  cbn [forallb] in Hin. apply andb_true_iff in Hin as [H1 H2].
  cbn [map]. by rewrite set_widget_state_inert, IHch.
Qed.

Lemma set_all_widgets_state_flat_agrees_witness :
  let root := [Leaf "username" TkEntry "normal";
               Leaf "browse" TkButton "normal";
               Leaf "progress_bar" TtkProgressbar "normal";
               Frame [Leaf "terminal_output" TkText "normal";
                      Leaf "terminal_output_scroll" TkScrollbar "normal"]] in
  set_all_widgets_state_flat "disabled" root = set_all_widgets_state "disabled" root.
Proof.
  intros root. apply (set_all_widgets_state_flat_agrees "disabled" root).
  intros wd Hwd. unfold root in Hwd.
  repeat (apply elem_of_cons in Hwd as [-> | Hwd]; [exact I || reflexivity |]).
  by apply elem_of_nil in Hwd.
Defined.

(** ** The ping *)


(** ** How a session can fail *)

Lemma body_raise_inv interval duration start_time ev cp ms w ex w' :
  body interval duration start_time ev cp ms w = BodyRaise ex w' →
  (ex = ZeroDivisionError ∧ duration = 0)
  ∨ (ex = UnboundLocalError ∧ cp = None
     ∧ ∃ x lat, tick_read ev = ReadRaises x lat).
Proof.
  unfold body. destruct ev as [[pw lat | e lat] sl];
    cbn [tick_read tick_sleep wait_read];
    [ | destruct cp as [pw |] ];
    try destruct (Z.eqb_spec duration 0); try destruct sl as [late | after];
    intros H; inversion H; subst; eauto 10.
Qed.

Lemma loop_raise_inv interval duration end_time start_time evs t0 :
  end_time ≤ t0 + duration * usec →
  ∀ cp ms w ex w',
    t0 ≤ clock w →
    loop interval duration end_time start_time evs cp ms w = LoopRaise ex w' →
    ex = UnboundLocalError ∧ cp = None
    ∧ ∃ x lat sl rest, evs = mkTick (ReadRaises x lat) sl :: rest.
Proof.
  intros Hend. induction evs as [| ev evs IH]; intros cp ms w ex w' Hst H; cbn [loop] in H.
  - destruct (clock w <? end_time); discriminate.
  - destruct (Z.ltb_spec (clock w) end_time); [| discriminate].
    destruct (body interval duration start_time ev cp ms w) as [cp1 ms1 w1 | ms1 w1 | e1 w1]
      eqn:Hb; try discriminate.
    + pose proof (body_continue_clock _ _ _ _ _ _ _ _ _ _ Hb) as Hclock.
      apply body_continue_sample in Hb as (pw & _ & -> & _).
      pose proof (tick_wait_nonneg ev).
      apply IH in H as (_ & Hcp & _); [discriminate | lia].
    + inversion H; subst.
      apply body_raise_inv in Hb as [[_ ->] | (-> & -> & x & lat & Hev)].
      * unfold usec in *. lia.
      * destruct ev as [rd sl]. cbn in Hev. subst rd. eauto 10.
Qed.

Lemma measure_power_raise_inv env tapo_ip interval duration csv_name w e w' :
  measure_power env tapo_ip interval duration csv_name w = (Raised e, w') →
  (∃ lat, env_connect env = ConnectRaises e lat)
  ∨ (e = UnboundLocalError
     ∧ ∃ x lat sl rest, env_ticks env = mkTick (ReadRaises x lat) sl :: rest)
  ∨ (e = OSError ∧ env_fault env ≠ NoFault).
Proof.
  unfold measure_power. destruct (env_connect env) as [lat | e0 lat].
  2: { intros H; inversion H; subst. left. eauto. }
  state_simpl.
  match goal with |- context [loop ?i ?d ?e ?s ?evs ?cp ?ms ?w0] =>
    pose proof (loop_raise_inv i d e s evs (clock w + Z.of_N lat) ltac:(lia)) as Hraise;
    destruct (loop i d e s evs cp ms w0) as [ms' w1 | ms' w1 | e' w1 | w1] eqn:Hloop
  end; try discriminate.
  - unfold write_csv. destruct (env_fault env) as [| | k cut];
      intros H; inversion H; subst; right; right; split; done.
  - intros H; inversion H; subst.
    apply Hraise in Hloop as (-> & _ & Hev); [| state_simpl; lia].
    right; left. split; [reflexivity | exact Hev].
Qed.

(** X18.  On a device that connects, the division by the duration never
    fails: the loop makes no pass when the duration is zero or negative.
    And [UnboundLocalError] comes out of a session only when the very first
    read of its loop has raised. *)
Theorem division_never_fails env tapo_ip interval duration csv_name w lat e w' :
  env_connect env = ConnectOk lat →
  measure_power env tapo_ip interval duration csv_name w = (Raised e, w') →
  e ≠ ZeroDivisionError
  ∧ (e = UnboundLocalError →
     ∃ x rlat sl rest, env_ticks env = mkTick (ReadRaises x rlat) sl :: rest).
Proof.
  intros Hc H. apply measure_power_raise_inv in H as [[lat' Hc'] | [[-> Hev] | [-> _]]].
  - congruence.
  - split; [discriminate | intros _; exact Hev].
  - split; discriminate.
Qed.

Lemma division_never_fails_witness :
  ∃ w', measure_power env_first_read_fails "192.168.0.10" 1000000 3 "out.csv" world0
        = (Raised UnboundLocalError, w')
  ∧ UnboundLocalError ≠ ZeroDivisionError
  ∧ (UnboundLocalError = UnboundLocalError →
     ∃ x rlat sl rest,
       env_ticks env_first_read_fails = mkTick (ReadRaises x rlat) sl :: rest).
Proof.
  eexists. split; [vm_compute; reflexivity |].
  eapply (division_never_fails env_first_read_fails "192.168.0.10" 1000000 3 "out.csv" world0
            0%N);
    [reflexivity | vm_compute; reflexivity].
Defined.

(** X19.  With a duration of zero or less, on a device that connects, the
    loop makes no pass: the device is never read, and the session completes
    with a file that holds the header alone. *)
Theorem nonpositive_duration_header_only env tapo_ip interval duration csv_name w lat :
  duration ≤ 0 →
  env_connect env = ConnectOk lat →
  env_fault env = NoFault →
  ∃ w', measure_power env tapo_ip interval duration csv_name w = (Returned false, w')
        ∧ fs w' = <[csv_name := CsvFile [header]]> (fs w)
        ∧ ¬ In (Port GetEnergyUsage) (emitted w w').
Proof.
  intros Hd Hc Hf. unfold measure_power. rewrite Hc, Hf. state_simpl.
  assert (Hloop : ∀ w0, clock w0 = clock w + Z.of_N lat →
            loop interval duration (clock w + Z.of_N lat + duration * usec)
                 (wall w (clock w + Z.of_N lat)) (env_ticks env) None [] w0 = LoopExit [] w0).
  { intros w0 Hw0. destruct (env_ticks env) as [| ev evs]; cbn [loop];
      rewrite (proj2 (Z.ltb_ge _ _)) by (unfold usec; lia); reflexivity. }
  rewrite Hloop by reflexivity. cbn [write_csv]. state_simpl.
  eexists. split; [reflexivity |]. state_simpl. split; [reflexivity |].
  erewrite emitted_app by (state_simpl; rewrite <- ?app_assoc; reflexivity).
  in_cases.
Qed.

Lemma nonpositive_duration_header_only_witness :
  ∃ w', measure_power env_three_ticks "192.168.0.10" 1000000 0 "out.csv" world0
        = (Returned false, w')
        ∧ fs w' = <["out.csv" := CsvFile [header]]> (fs world0)
        ∧ ¬ In (Port GetEnergyUsage) (emitted world0 w').
Proof.
  apply (nonpositive_duration_header_only env_three_ticks "192.168.0.10" 1000000 0
           "out.csv" world0 0%N); [lia | reflexivity | reflexivity].
Defined.

(** ** When a cancellation is reported *)

Lemma body_no_status interval duration start_time ev cp ms w :
  ∃ l, log (body_state (body interval duration start_time ev cp ms w)) = log w ++ l
       ∧ ∀ m, ¬ In (Ui (UpdateStatus m)) l.
Proof.
  unfold body. destruct ev as [[pw lat | e lat] sl];
    cbn [tick_read tick_sleep wait_read];
    [ | destruct cp as [pw |] ];
    try destruct (duration =? 0); try destruct sl as [late | after];
    state_simpl; rewrite <- ?app_assoc;
    (eexists; split; [reflexivity |]; in_cases).
Qed.

Lemma loop_no_status interval duration end_time start_time evs :
  ∀ cp ms w,
    ∃ l, log (loop_state (loop interval duration end_time start_time evs cp ms w))
         = log w ++ l
         ∧ ∀ m, ¬ In (Ui (UpdateStatus m)) l.
Proof.
  induction evs as [| ev evs IH]; intros cp ms w; cbn [loop].
  - destruct (clock w <? end_time); exists []; rewrite app_nil_r; split; in_cases.
  - destruct (clock w <? end_time).
    2: { exists []; rewrite app_nil_r; split; in_cases. }
    destruct (body_no_status interval duration start_time ev cp ms w) as (l & Hlog & Hno).
    destruct (body interval duration start_time ev cp ms w) as [cp' ms' w' | ms' w' | e w'];
      state_simpl; eauto.
    destruct (IH cp' ms' w') as (l' & Hlog' & Hno').
    exists (l ++ l'). rewrite Hlog', Hlog, app_assoc. split; [reflexivity |].
    intros m [H | H]%in_app_or; [by eapply Hno | by eapply Hno'].
Qed.

Lemma measure_power_no_status env tapo_ip interval duration csv_name w :
  ∃ l, log (measure_power env tapo_ip interval duration csv_name w).2 = log w ++ l
       ∧ ∀ m, ¬ In (Ui (UpdateStatus m)) l.
Proof.
  unfold measure_power.
  destruct (env_connect env) as [lat | e lat].
  2: { eexists; state_simpl; split; [reflexivity | in_cases]. }
  match goal with |- context [loop ?i ?d ?e ?s ?evs ?cp ?ms ?w0] =>
    destruct (loop_no_status i d e s evs cp ms w0) as (l & Hlog & Hno);
    destruct (loop i d e s evs cp ms w0) as [ms' w1 | ms' w1 | e' w1 | w1]
  end; cbn [fst snd]; state_simpl.
  1: match goal with |- context [write_csv ?f ?c ?m ?w0] =>
       pose proof (write_csv_log f c m w0) as Hw;
       destruct (write_csv f c m w0) as [[e' |] w2]
     end; state_simpl; cbn [fst snd] in *; state_simpl; rewrite ?Hw.
  all: rewrite Hlog, <- ?app_assoc; (eexists; split; [reflexivity |]);
    cbn; intros m H;
    repeat match type of H with
           | _ ∨ _ => destruct H as [H | H]; try discriminate H
           | In _ (_ ++ _) => apply in_app_or in H as [H | H]
           end;
    try (by eapply Hno); revert H; in_cases.
Qed.

Lemma begin_no_status w :
  ∃ l, log (measure_power_async_begin w).2 = log w ++ l
       ∧ ∀ m, ¬ In (Ui (UpdateStatus m)) l.
Proof.
  unfold measure_power_async_begin, makedirs. state_simpl.
  destruct (interval_var (form w)) as [i |];
    [destruct (duration_var (form w)) as [d |] |];
    [destruct (bool_decide _ || bool_decide _) | |]; state_simpl;
    [ |
      destruct (_ !! folder_var (form w)) as [[| c | rows] |];
      [ | | | destruct (decide (folder_var (form w) = "")) ]; state_simpl;
      try destruct (get_unique_filename _ _ _) as [csv_path |]; state_simpl
    | | ];
    cbn [fst snd]; state_simpl; rewrite <- ?app_assoc;
    (eexists; split; [reflexivity | in_cases]).
Qed.

(** X20.  The status line "Measurement cancelled." is shown in one case
    only: a task was created and [CancelledError] was thrown into it while
    it was connecting.  A cancellation that the loop catches at its pacing
    wait ends the coroutine without that status. *)
Theorem cancelled_status_only_at_connect env w :
  let r := measure_power_async env w in
  (In (Ui (UpdateStatus "Measurement cancelled.")) (emitted w r.2)
   ↔ r.1 = AsyncDone (Raised CancelledError))
  ∧ (r.1 = AsyncDone (Raised CancelledError)
     ↔ ∃ t lat, (measure_power_async_begin w).1 = BeginTask t
                ∧ env_connect env = ConnectRaises CancelledError lat).
Proof.
  unfold measure_power_async.
  destruct (begin_no_status w) as (l & Hlog & Hno).
  destruct (measure_power_async_begin w) as [[e | | t |] w0]; cbn [fst snd] in *.
  1, 2, 4: rewrite (emitted_app _ _ _ Hlog);
    (split; split; intros H; try discriminate H;
     [ by apply Hno in H | destruct H as (? & ? & H & _); discriminate H ]).
  destruct (measure_power_no_status env (task_ip t) (task_interval t) (task_duration t)
              (task_csv t) w0) as (l' & Hlog' & Hno').
  destruct (measure_power env _ _ _ _ w0) as [[b | e |] w1] eqn:Hm; cbn [fst snd] in *.
  - erewrite emitted_app by (state_simpl; rewrite Hlog', Hlog, <- app_assoc; reflexivity).
    split; split; intros H; try discriminate H.
    + apply in_app_or in H as [H | H]; [by apply Hno in H | by apply Hno' in H].
    + destruct H as (t' & lat & [= <-] & Hc).
      unfold measure_power in Hm. rewrite Hc in Hm. discriminate.
  - assert (Hconn : e = CancelledError ↔ ∃ lat, env_connect env = ConnectRaises CancelledError lat).
    { split.
      - intros ->. apply measure_power_raise_inv in Hm as [Hc | [[? _] | [? _]]];
          [exact Hc | discriminate | discriminate].
      - intros [lat Hc]. unfold measure_power in Hm. rewrite Hc in Hm. by inversion Hm. }
    destruct e; cbn [fst snd];
      (erewrite emitted_app
         by (state_simpl; rewrite Hlog', Hlog, <- ?app_assoc; reflexivity));
      (split; split; intros H; try discriminate H; try reflexivity;
       [ try (apply in_app_or in H as [H | H]; [by apply Hno in H |];
              try (apply in_app_or in H as [H | H]); try (by apply Hno' in H);
              revert H; in_cases)
       | ..]).
    all: try (apply in_or_app; right; apply in_or_app; right; left; reflexivity).
    all: try (destruct H as (t' & lat & _ & Hc);
              destruct Hconn as [_ Hconn]; specialize (Hconn (ex_intro _ lat Hc));
              discriminate Hconn).
    destruct Hconn as [Hconn _]. destruct (Hconn eq_refl) as [lat Hc]. eauto.
  - erewrite emitted_app by (state_simpl; rewrite Hlog', Hlog, <- app_assoc; reflexivity).
    split; split; intros H; try discriminate H.
    + apply in_app_or in H as [H | H]; [by apply Hno in H | by apply Hno' in H].
    + destruct H as (t' & lat & [= <-] & Hc).
      unfold measure_power in Hm. rewrite Hc in Hm. discriminate.
Qed.

End Tapo.
